(** * nestjs-mcp: handler registration pipeline and session-keyed transport
      multiplexer

    A shallow embedding of
      - [McpService]      (src/mcp/services/mcp.service.ts),
      - [ExplorerService] (src/mcp/services/explorer.service.ts),
      - [McpModule]       (src/mcp/mcp.module.ts),
      - [McpHttpService]  (src/mcp/services/mcp-http.service.ts),
    with the properties the specification states about them.

    The protocol engine (the SDK's McpServer), the SDK transports, Express
    and the Nest container are external collaborators.  The engine is
    modelled by the list of calls it receives and by a parameter that says
    which calls it refuses; what an external callee does (resolve, reject,
    write to the response) is an argument of the function that calls it. *)

From stdpp Require Import base strings gmap list.

Open Scope string_scope.
Open Scope list_scope.

(* ===================================================================== *)
(** ** JavaScript values the code inspects *)
(* ===================================================================== *)

Module Js.

(** An [Error] object: the code reads [error.message] and [error.stack]. *)
Record Error := { message : string; stack : string }.

(** The one-character string holding a double quote. *)
Definition dquote : string := String (Ascii.ascii_of_nat 34) EmptyString.

(** [!s] for a value typed [string | undefined]: [undefined] and the empty
    string are the falsy ones.  [truthy s] is the string when it is truthy. *)
Definition truthy (s : option string) : option string :=
  match s with
  | Some v => if decide (v = EmptyString) then None else Some v
  | None => None
  end.

(** "absent or empty", the specification's words for a falsy string. *)
Definition absent_or_empty (v : option string) : Prop :=
  v = None ∨ v = Some EmptyString.

(** Property names every object literal inherits from [Object.prototype]. *)
Definition object_prototype_keys : list string :=
  [ "constructor"; "__defineGetter__"; "__defineSetter__"; "hasOwnProperty";
    "__lookupGetter__"; "__lookupSetter__"; "isPrototypeOf";
    "propertyIsEnumerable"; "toString"; "valueOf"; "__proto__";
    "toLocaleString" ].

(** The result of reading [o[k]] where [o] was created by [{}] and its own
    properties are the finite map [o]. *)
Inductive Read (V : Type) :=
| Own (v : V)              (* an own property *)
| Inherited (k : string)   (* a member of Object.prototype: truthy, not a V *)
| Undefined.
Arguments Own {V} v.
Arguments Inherited {V} k.
Arguments Undefined {V}.

(** [o[k]] *)
Definition get {V} (o : gmap string V) (k : string) : Read V :=
  match o !! k with
  | Some v => Own v
  | None => if decide (k ∈ object_prototype_keys) then Inherited k else Undefined
  end.

(** [o[k] = v] for an object value [v], as far as own properties go: the
    key [__proto__] goes to the inherited setter, which creates no own
    property (it makes [v] the prototype of [o]; what is then read through
    [v] is not followed here). *)
Definition set {V} (o : gmap string V) (k : string) (v : V) : gmap string V :=
  if decide (k = "__proto__") then o else <[k := v]> o.

(** [delete o[k]] *)
Definition del {V} (o : gmap string V) (k : string) : gmap string V :=
  delete k o.

(** [Object.keys(o)] (the order is not used by the code: only the length). *)
Definition keys {V} (o : gmap string V) : list string := (map_to_list o).*1.

End Js.

(* ===================================================================== *)
(** ** Effects: state passing with exceptions, and the Nest logger *)
(* ===================================================================== *)

(** How a call ends: it returns a value, or an exception leaves it. *)
Inductive Completion (A : Type) :=
| Returns (a : A)
| Raises (e : Js.Error).
Arguments Returns {A} a.
Arguments Raises {A} e.

Definition Eff (S A : Type) : Type := S → Completion A * S.

Definition ret {S A} (a : A) : Eff S A := λ s, (Returns a, s).

Definition bind {S A B} (c : Eff S A) (k : A → Eff S B) : Eff S B :=
  λ s, match c s with
       | (Returns a, s') => k a s'
       | (Raises e, s') => (Raises e, s')
       end.

Definition throw {S A} (e : Js.Error) : Eff S A := λ s, (Raises e, s).

(** [try { c } catch (error) { h error }] *)
Definition try_catch {S A} (c : Eff S A) (h : Js.Error → Eff S A) : Eff S A :=
  λ s, match c s with
       | (Returns a, s') => (Returns a, s')
       | (Raises e, s') => h e s'
       end.

Definition modify {S} (f : S → S) : Eff S unit := λ s, (Returns tt, f s).
Definition gets {S A} (f : S → A) : Eff S A := λ s, (Returns (f s), s).

Declare Scope eff_scope.
Delimit Scope eff_scope with eff.
Notation "x <- c ;; k" := (bind c (λ x, k))
  (at level 100, c at next level, right associativity) : eff_scope.
Notation "c ;; k" := (bind c (λ _, k))
  (at level 100, right associativity) : eff_scope.
Open Scope eff_scope.

Inductive LogLevel := LOG | WARN | ERROR | DEBUG.

#[global] Instance LogLevel_eq_dec : EqDecision LogLevel.
Proof. solve_decision. Defined.

Record LogEntry := { level : LogLevel; text : string }.

Definition errors (l : list LogEntry) : list string :=
  text <$> filter (λ e, level e = ERROR) l.

(* ===================================================================== *)
(** ** McpService: the registration coordinator *)
(* ===================================================================== *)

Module McpService.

(** A bound method: the instance that owns it and the method's name. *)
Record Handler := { owner : nat; method : string }.

(** The fragment of zod the coordinator builds: [z.string()],
    [.describe(d)] and [.optional()]. *)
Inductive ZodSchema :=
| ZodString (description : option string)
| ZodOptional (inner : ZodSchema).

Definition z_string : ZodSchema := ZodString None.

Definition describe (s : ZodSchema) (d : string) : ZodSchema :=
  match s with
  | ZodString _ => ZodString (Some d)
  | ZodOptional i => ZodOptional i
  end.

Definition optional (s : ZodSchema) : ZodSchema := ZodOptional s.

(** [ZodRawShape] and the local [PromptArgsRawShape]: objects keyed by
    parameter name. *)
Abbreviation ZodRawShape := (gmap string ZodSchema).
Abbreviation PromptArgsRawShape := (gmap string ZodSchema).

(** The SDK's [ResourceTemplate]: the pattern and the optional list callback. *)
Record ResourceTemplate := { pattern : string; list_callback : option nat }.

Abbreviation ResourceMetadata := (list (string * string)).

(** What the [uriTemplate] field of a definition can hold at run time. *)
Inductive JsOther := js_undefined | js_null | js_number (n : Z) | js_boolean (b : bool) | js_object.

Inductive UriTemplateValue :=
| UT_string (s : string)
| UT_instance (t : ResourceTemplate)
| UT_other (v : JsOther).

(** [ResourceOptions = FixedResourceOptions | TemplateResourceOptions]; a
    field that is [None] is not carried by the object. *)
Record ResourceOptions := {
  r_name : option string;
  r_uri : option string;
  r_uriTemplate : option UriTemplateValue;
  r_description : option string;
  r_metadata : option ResourceMetadata
}.

Record PromptArgument := {
  a_name : option string;
  a_description : option string;
  a_required : option bool
}.

Record PromptType := {
  p_name : option string;
  p_description : option string;
  p_arguments : option (list PromptArgument)
}.

Record ToolOptions := {
  t_name : option string;
  t_description : option string;
  t_paramsSchema : option ZodRawShape
}.

Record Implementation := { impl_name : string; impl_version : string }.

Record ServerOptions := { capabilities : list string; instructions : option string }.

Inductive TransportType := STDIO | SSE | NONE.

Record McpModuleOptions := {
  serverInfo : option Implementation;
  serverOptions : option ServerOptions;
  transport : option TransportType
}.

(** The registration entry points of the engine, one constructor per
    overload the coordinator calls. *)
Inductive EngineCall :=
| resource_uri (name : string) (uri : option string) (metadata : ResourceMetadata) (cb : Handler)
| resource_template (name : string) (template : ResourceTemplate) (metadata : ResourceMetadata) (cb : Handler)
| prompt_plain (name description : string) (cb : Handler)
| prompt_args (name description : string) (argsSchema : PromptArgsRawShape) (cb : Handler)
| tool_description_schema (name description : string) (paramsSchema : ZodRawShape) (cb : Handler)
| tool_schema (name : string) (paramsSchema : ZodRawShape) (cb : Handler)
| tool_description (name description : string) (cb : Handler)
| tool_plain (name : string) (cb : Handler).

(** The SDK is not part of the sources, so how its classes answer is a
    parameter of the model.  [refuses history call] is the exception that
    [server.resource], [server.tool] or [server.prompt] raises for [call]
    after the calls of [history] (a name that is already registered, say),
    and [malformed pattern] the exception that
    [new ResourceTemplate(pattern, ...)] raises. *)
Record Sdk := {
  refuses : list EngineCall → EngineCall → option Js.Error;
  malformed : string → option Js.Error
}.

(** [new McpServer(info, options)] and the registration calls it has
    received, oldest first, a refused call included. *)
Record McpServer := {
  sdk : Sdk;
  info : Implementation;
  options : option ServerOptions;
  registrations : list EngineCall
}.

Record t := { server : McpServer; logger : list LogEntry }.

(** What a registration method returns: the result of the engine call it
    ends with ([return this.server.resource(...)]), or nothing. *)
Inductive Returned := call_result | nothing.

Definition log_at (lv : LogLevel) (msg : string) : Eff t unit :=
  modify (λ s, {| server := server s; logger := logger s ++ [{| level := lv; text := msg |}] |}).

(** A registration call on [this.server]: the engine receives the call and
    raises if it refuses it. *)
Definition engine (c : EngineCall) : Eff t unit :=
  before <- gets server;;
  modify (λ s, {| server := {| sdk := sdk (server s); info := info (server s);
                               options := options (server s);
                               registrations := registrations (server s) ++ [c] |};
                  logger := logger s |});;
  match refuses (sdk before) (registrations before) c with
  | Some e => throw e
  | None => ret tt
  end.

(** [new ResourceTemplate(pattern, { list: undefined })] *)
Definition new_ResourceTemplate (pattern : string) : Eff t ResourceTemplate :=
  sdk <- gets (λ s, sdk (server s));;
  match malformed sdk pattern with
  | Some e => throw e
  | None => ret {| pattern := pattern; list_callback := None |}
  end.

Definition default_info : Implementation :=
  {| impl_name := "nestjs-mcp-server"; impl_version := "0.0.1" |}.

(** [constructor(moduleOptions)]; [sdk] is the SDK the class is built on. *)
Definition constructor (sdk : Sdk) (moduleOptions : McpModuleOptions) : t :=
  let info :=
    match serverInfo moduleOptions with
    | Some i => i
    | None => default_info
    end in
  let options := serverOptions moduleOptions in
  {| server := {| sdk := sdk; info := info; options := options; registrations := [] |};
     logger := [{| level := LOG; text := "McpServer instance created." |}] |}.

Definition getServer (s : t) : McpServer := server s.

(** ['uriTemplate' in options] *)
Definition isTemplateResource (options : ResourceOptions) : bool :=
  bool_decide (is_Some (r_uriTemplate options)).

Definition registerResource (definition : ResourceOptions) (handler : Handler) : Eff t Returned :=
  match Js.truthy (r_name definition) with
  | None =>
      log_at WARN "Resource missing required name. Skipping registration.";;
      ret nothing
  | Some name =>
      log_at LOG ("Registering resource: " +:+ name);;
      let metadata := default [] (r_metadata definition) in
      if isTemplateResource definition then
        match r_uriTemplate definition with
        | Some (UT_string s) =>
            template <- new_ResourceTemplate s;;
            engine (resource_template name template metadata handler);;
            ret call_result
        | Some (UT_instance tpl) =>
            engine (resource_template name tpl metadata handler);;
            ret call_result
        | _ =>
            log_at ERROR "Invalid uriTemplate type for template resource.";;
            ret nothing
        end
      else
        engine (resource_uri name (r_uri definition) metadata handler);;
        ret call_result
  end.

(** The schema one argument contributes (lines 166-174 of the loop body). *)
Definition argument_schema (arg : PromptArgument) : ZodSchema :=
  let schema := z_string in
  let schema :=
    match Js.truthy (a_description arg) with
    | Some d => describe schema d
    | None => schema
    end in
  match a_required arg with
  | Some true => schema
  | _ => optional schema
  end.

(** The [for (const arg of definition.arguments)] loop of [registerPrompt],
    started on the [argsSchema] built so far. *)
Fixpoint registerPrompt_loop (promptName : string) (arguments : list PromptArgument)
    (argsSchema : PromptArgsRawShape) : Eff t PromptArgsRawShape :=
  match arguments with
  | [] => ret argsSchema
  | arg :: rest =>
      match Js.truthy (a_name arg) with
      | None =>
          log_at WARN ("Prompt " +:+ Js.dquote +:+ promptName +:+ Js.dquote +:+
                       " has an argument without a name. Skipping argument.");;
          registerPrompt_loop promptName rest argsSchema
      | Some n =>
          registerPrompt_loop promptName rest (Js.set argsSchema n (argument_schema arg))
      end
  end.

Definition registerPrompt (definition : PromptType) (handler : Handler) : Eff t Returned :=
  match Js.truthy (p_name definition) with
  | None =>
      log_at WARN "Prompt missing required name. Skipping registration.";;
      ret nothing
  | Some name =>
      log_at LOG ("Registering prompt: " +:+ name);;
      let description := default EmptyString (Js.truthy (p_description definition)) in
      match p_arguments definition with
      | None | Some [] =>
          engine (prompt_plain name description handler);;
          ret call_result
      | Some arguments =>
          argsSchema <- registerPrompt_loop name arguments ∅;;
          if decide (length (Js.keys argsSchema) = 0) then
            log_at WARN ("Prompt " +:+ Js.dquote +:+ name +:+ Js.dquote +:+
                         " arguments processing resulted in empty schema. Registering as no-argument prompt.");;
            engine (prompt_plain name description handler);;
            ret call_result
          else
            engine (prompt_args name description argsSchema handler);;
            ret call_result
      end
  end.

(** [paramsSchema && Object.keys(paramsSchema).length > 0]: the shape when
    the test succeeds. *)
Definition nonempty_shape (paramsSchema : option ZodRawShape) : option ZodRawShape :=
  match paramsSchema with
  | Some shape => if decide (0 < length (Js.keys shape)) then Some shape else None
  | None => None
  end.

(** [registerTool]; [definition] itself may be missing ([!definition]). *)
Definition registerTool (definition : option ToolOptions) (handler : Handler) : Eff t Returned :=
  match definition ≫= (λ d, (λ n, (d, n)) <$> Js.truthy (t_name d)) with
  | None =>
      log_at WARN "Tool definition missing required name. Skipping registration.";;
      ret nothing
  | Some (definition, name) =>
      log_at LOG ("Registering tool: " +:+ name);;
      let description := Js.truthy (t_description definition) in
      let paramsSchema := t_paramsSchema definition in
      match nonempty_shape paramsSchema with
      | Some paramsSchema =>
          match description with
          | Some description =>
              engine (tool_description_schema name description paramsSchema handler);;
              ret call_result
          | None =>
              engine (tool_schema name paramsSchema handler);;
              ret nothing
          end
      | None =>
          match description with
          | Some description =>
              engine (tool_description name description handler);;
              ret nothing
          | None =>
              engine (tool_plain name handler);;
              ret nothing
          end
      end
  end.

(** *** States and readings used to state properties *)

Definition logged (lv : LogLevel) (msg : string) (s : t) : t :=
  {| server := server s; logger := logger s ++ [{| level := lv; text := msg |}] |}.

Definition registered (c : EngineCall) (s : t) : t :=
  {| server := {| sdk := sdk (server s); info := info (server s);
                  options := options (server s);
                  registrations := registrations (server s) ++ [c] |};
     logger := logger s |}.

(** How a method that ends with the engine call [c], made on [s], and then
    returns [r] completes: the engine's exception leaves it when the engine
    refuses the call. *)
Definition engine_outcome {A} (s : t) (c : EngineCall) (r : A) : Completion A :=
  match refuses (sdk (server s)) (registrations (server s)) c with
  | None => Returns r
  | Some e => Raises e
  end.

(** An SDK that refuses no call and rejects no template. *)
Definition lenient (k : Sdk) : Prop :=
  (∀ history c, refuses k history c = None) ∧ (∀ p, malformed k p = None).

(** [e] is an exception of the SDK: the engine raises it for some call, or
    the matcher's constructor for some template. *)
Definition raised_by (k : Sdk) (e : Js.Error) : Prop :=
  (∃ history c, refuses k history c = Some e) ∨ (∃ p, malformed k p = Some e).

(** The description and the parameter shape an engine call for a tool
    carries, when it carries one. *)
Definition passed_description (c : EngineCall) : option string :=
  match c with
  | tool_description_schema _ d _ _ | tool_description _ d _ => Some d
  | _ => None
  end.

Definition passed_shape (c : EngineCall) : option ZodRawShape :=
  match c with
  | tool_description_schema _ _ sh _ | tool_schema _ sh _ => Some sh
  | _ => None
  end.

(** The arguments that carry the (truthy) name [k], in order. *)
Definition arguments_named (k : string) (arguments : list PromptArgument) : list PromptArgument :=
  filter (λ a, Js.truthy (a_name a) = Some k) arguments.

(** The warning logged for each argument without a name. *)
Definition nameless_warnings (promptName : string) (arguments : list PromptArgument)
    : list LogEntry :=
  (λ _, {| level := WARN;
           text := "Prompt " +:+ Js.dquote +:+ promptName +:+ Js.dquote +:+
                   " has an argument without a name. Skipping argument." |})
    <$> filter (λ a, Js.truthy (a_name a) = None) arguments.

(** One iteration of the loop on the schema alone. *)
Definition loop_step (acc : PromptArgsRawShape) (arg : PromptArgument) : PromptArgsRawShape :=
  match Js.truthy (a_name arg) with
  | Some n => Js.set acc n (argument_schema arg)
  | None => acc
  end.

End McpService.

(* ===================================================================== *)
(** ** ExplorerService: the discovery scanner *)
(* ===================================================================== *)

Module ExplorerService.

Import McpService.

(** [IMetadataBase & { options: T }] as the decorators store it. *)
Record IMetadataBase (T : Type) := { methodName : string; options : option T }.
Arguments methodName {T} _.
Arguments options {T} _.

(** Modelled from the spec: decorators/constants.ts and
    decorators/base.decorator.ts are not part of the sources.  A metadata key
    selects, among what the decorators attached to a function, the definition
    of its own kind ("a method annotated as a Tool must not simultaneously
    satisfy a Resource lookup"). *)
Record Decorations := {
  resource_metadata : option (IMetadataBase ResourceOptions);
  tool_metadata : option (IMetadataBase ToolOptions);
  prompt_metadata : option (IMetadataBase PromptType)
}.

Definition MetadataKey (T : Type) : Type := Decorations → option (IMetadataBase T).

Definition MCP_RESOURCE_METADATA : MetadataKey ResourceOptions := resource_metadata.
Definition MCP_TOOL_METADATA : MetadataKey ToolOptions := tool_metadata.
Definition MCP_PROMPT_METADATA : MetadataKey PromptType := prompt_metadata.

(** What [instance[methodName]] yields. *)
Inductive Member :=
| member_falsy                      (* undefined, null, 0, ... *)
| member_function (d : Decorations) (* a function and its decorations *)
| member_primitive                  (* truthy, not an object *)
| member_throws (e : Js.Error).     (* the property access raises *)

(** [wrapper.instance]; for an object, [methods] lists the names
    [getAllMethodNames(prototype)] returns with what reading each from the
    instance yields. *)
Inductive Instance :=
| instance_falsy
| instance_primitive
| instance_object (id : nat) (has_constructor : bool) (methods : list (string * Member)).

Record InstanceWrapper := { instance : Instance }.
Record Module_ := { providers : list InstanceWrapper }.
Abbreviation ModulesContainer := (list Module_).

Record DiscoveredItem (T : Type) := {
  item_instance : nat;
  handler : Handler;
  metadata : IMetadataBase T
}.
Arguments item_instance {T} _.
Arguments handler {T} _.
Arguments metadata {T} _.

(** The [TypeError] [Reflect.getMetadata] raises on a target that is not an
    object. *)
Definition type_error : Js.Error := {| Js.message := EmptyString; Js.stack := "TypeError" |}.

(** [this.reflector.get(metadataKey, handler)] *)
Definition reflector_get {T} (metadataKey : MetadataKey T) (handler : Member)
    : Completion (option (IMetadataBase T)) :=
  match handler with
  | member_function d => Returns (metadataKey d)
  | member_primitive => Raises type_error
  | member_falsy => Raises type_error
  | member_throws e => Raises e
  end.

(** [list.forEach(f)]: an exception raised by [f] leaves the loop. *)
Fixpoint forEach {S A} (l : list A) (f : A → Eff S unit) : Eff S unit :=
  match l with
  | [] => ret tt
  | x :: rest => f x;; forEach rest f
  end.

Definition is_truthy (i : Instance) : bool :=
  match i with
  | instance_falsy => false
  | _ => true
  end.

(** The callback of [methodNames.forEach]; the state is [discovered]. *)
Definition explore_method {T} (metadataKey : MetadataKey T) (id : nat)
    (m : string * Member) : Eff (list (DiscoveredItem T)) unit :=
  let '(methodName, read) := m in
  match read with
  | member_throws e => throw e
  | member_falsy => ret tt
  | handler =>
      match reflector_get metadataKey handler with
      | Raises e => throw e
      | Returns None => ret tt
      | Returns (Some metadata) =>
          modify (λ discovered : list (DiscoveredItem T),
            (discovered ++ [{| item_instance := id;
                              handler := {| owner := id; method := methodName |};
                              metadata := metadata |}])%list)
      end
  end.

(** The callback of [components.forEach]. *)
Definition explore_component {T} (metadataKey : MetadataKey T) (wrapper : InstanceWrapper)
    : Eff (list (DiscoveredItem T)) unit :=
  match instance wrapper with
  | instance_object id true methodNames => forEach methodNames (explore_method metadataKey id)
  | _ => ret tt
  end.

Definition explore {T} (metadataKey : MetadataKey T) (modulesContainer : ModulesContainer)
    : Completion (list (DiscoveredItem T)) :=
  let modules := modulesContainer in
  let components :=
    filter (λ wrapper, is_truthy (instance wrapper) = true) (modules ≫= providers) in
  match forEach components (explore_component metadataKey) [] with
  | (Returns _, discovered) => Returns discovered
  | (Raises e, _) => Raises e
  end.

Definition exploreResources := explore MCP_RESOURCE_METADATA.
Definition exploreTools := explore MCP_TOOL_METADATA.
Definition explorePrompts := explore MCP_PROMPT_METADATA.

End ExplorerService.

(* ===================================================================== *)
(** ** McpModule: the bootstrap hook *)
(* ===================================================================== *)

Module McpModule.

(** [new StdioServerTransport()] *)
Inductive ServerTransport := StdioServerTransport.

Record t := {
  explorerService : ExplorerService.ModulesContainer;
  mcpService : McpService.t;
  module_options : McpService.McpModuleOptions;
  logger : list LogEntry;
  (** the transports [server.connect] has been called with *)
  connect_calls : list ServerTransport
}.

Definition log_at (lv : LogLevel) (msg : string) : Eff t unit :=
  modify (λ m, {| explorerService := explorerService m; mcpService := mcpService m;
                  module_options := module_options m;
                  logger := logger m ++ [{| level := lv; text := msg |}];
                  connect_calls := connect_calls m |}).

(** A call on [this.mcpService]. *)
Definition in_service {A} (c : Eff McpService.t A) : Eff t A :=
  λ m, let '(r, s) := c (mcpService m) in
       (r, {| explorerService := explorerService m; mcpService := s;
              module_options := module_options m; logger := logger m;
              connect_calls := connect_calls m |}).

(** A call on [this.explorerService]. *)
Definition in_explorer {A} (c : ExplorerService.ModulesContainer → Completion A) : Eff t A :=
  λ m, (c (explorerService m), m).

(** Reading a property of [undefined]. *)
Definition undefined_property_error : Js.Error :=
  {| Js.message := "Cannot read properties of undefined (reading 'name')";
     Js.stack := "TypeError" |}.

(** [(handler as any).name || metadata.methodName] for a bound function. *)
Definition handler_name (h : McpService.Handler) : string :=
  "bound " +:+ McpService.method h.

Definition registerMcpHandlers : Eff t unit :=
  resources <- in_explorer ExplorerService.exploreResources;;
  ExplorerService.forEach resources (λ item,
    let metadata := ExplorerService.metadata item in
    let handler := ExplorerService.handler item in
    log_at DEBUG ("Registering resource from handler: " +:+
      default (ExplorerService.methodName metadata)
        (ExplorerService.options metadata ≫= λ o, Js.truthy (McpService.r_name o)));;
    match ExplorerService.options metadata with
    | None => throw undefined_property_error
    | Some definition =>
        in_service (McpService.registerResource definition handler);; ret tt
    end);;
  tools <- in_explorer ExplorerService.exploreTools;;
  ExplorerService.forEach tools (λ item,
    let metadata := ExplorerService.metadata item in
    let handler := ExplorerService.handler item in
    match ExplorerService.options metadata ≫=
            λ o, (λ n, (o, n)) <$> Js.truthy (McpService.t_name o) with
    | None =>
        log_at WARN ("Tool handler " +:+ handler_name handler +:+
                     " is missing required 'name' in options. Skipping registration.")
    | Some (definition, name) =>
        log_at DEBUG ("Registering tool from handler: " +:+ name);;
        in_service (McpService.registerTool (Some definition) handler);; ret tt
    end);;
  prompts <- in_explorer ExplorerService.explorePrompts;;
  ExplorerService.forEach prompts (λ item,
    let metadata := ExplorerService.metadata item in
    let handler := ExplorerService.handler item in
    match ExplorerService.options metadata ≫=
            λ o, (λ n, (o, n)) <$> Js.truthy (McpService.p_name o) with
    | None =>
        log_at WARN ("Prompt handler " +:+ handler_name handler +:+
                     " is missing required 'name' in options. Skipping registration.")
    | Some (definition, name) =>
        log_at DEBUG ("Registering prompt from handler: " +:+ name);;
        in_service (McpService.registerPrompt definition handler);; ret tt
    end).

(** [await server.connect(transport)]; [connect] tells how the engine's
    promise settles: [None] when it resolves, [Some e] when it rejects. *)
Definition server_connect (connect : McpService.McpServer → option Js.Error)
    (server : McpService.McpServer) (transport : ServerTransport) : Eff t unit :=
  modify (λ m, {| explorerService := explorerService m; mcpService := mcpService m;
                  module_options := module_options m; logger := logger m;
                  connect_calls := connect_calls m ++ [transport] |});;
  match connect server with
  | None => ret tt
  | Some e => throw e
  end.

(** ['transport' in this.options && this.options.transport === TransportType.STDIO] *)
Definition is_stdio (o : McpService.McpModuleOptions) : bool :=
  match McpService.transport o with
  | Some McpService.STDIO => true
  | _ => false
  end.

Definition onApplicationBootstrap (connect : McpService.McpServer → option Js.Error)
    : Eff t unit :=
  log_at LOG "Bootstrapping MCP Module...";;
  registerMcpHandlers;;
  log_at LOG "MCP Handlers registered.";;
  options <- gets module_options;;
  (if is_stdio options then
     try_catch
       (let transport := StdioServerTransport in
        server <- gets (λ m, McpService.getServer (mcpService m));;
        server_connect connect server transport;;
        log_at LOG "McpServer connected to stdio transport.")
       (λ error, log_at ERROR "Failed to connect McpServer to stdio transport:")
   else
     log_at LOG "MCP Module configured for non-stdio transport (e.g., SSE/HTTP or custom). No automatic connection needed here.");;
  log_at LOG "MCP Module bootstrapped successfully.".

(** *** States and relations used to state properties *)

Definition logged (lv : LogLevel) (msg : string) (m : t) : t :=
  {| explorerService := explorerService m; mcpService := mcpService m;
     module_options := module_options m;
     logger := logger m ++ [{| level := lv; text := msg |}];
     connect_calls := connect_calls m |}.

(** What discovery and registration leave alone: the container, the
    configured options and the connections made so far. *)
Definition frame (m m' : t) : Prop :=
  explorerService m' = explorerService m
  ∧ module_options m' = module_options m
  ∧ connect_calls m' = connect_calls m.

Definition preserves {A} (c : Eff t A) : Prop :=
  ∀ m r m', c m = (r, m') → frame m m'.

End McpModule.

(* ===================================================================== *)
(** ** McpModule: the static module builders *)
(* ===================================================================== *)

Module McpModuleStatic.

(** A class or a module, by name. *)
Abbreviation ClassRef := string.

(** An injection token: a string, a class, or [undefined] where the code
    passes on an option that was not given. *)
Inductive Token :=
| string_token (s : string)
| class_token (c : ClassRef)
| undefined_token.

#[global] Instance Token_eq_dec : EqDecision Token.
Proof. solve_decision. Defined.

(** mcp.constants.ts *)
Definition MCP_MODULE_OPTIONS : Token := string_token "MCP_MODULE_OPTIONS".

Definition token_of (c : option ClassRef) : Token :=
  match c with
  | Some c => class_token c
  | None => undefined_token
  end.

(** A factory function: the one the caller gave (by name), or the arrow
    function [async (optionsFactory) => await optionsFactory.createMcpOptions()]. *)
Inductive Factory :=
| user_factory (f : string)
| createMcpOptions_factory.

Inductive Provider :=
| ValueProvider (provide : Token) (useValue : McpService.McpModuleOptions)
| FactoryProvider (provide : Token) (useFactory : Factory) (inject : list Token)
| ClassProvider (provide : Token) (useClass : Token)
| TypeProvider (c : ClassRef).

(** The token a provider answers to. *)
Definition provided (p : Provider) : Token :=
  match p with
  | ValueProvider t _ | FactoryProvider t _ _ | ClassProvider t _ => t
  | TypeProvider c => class_token c
  end.

Record McpModuleAsyncOptions := {
  imports : option (list ClassRef);
  useExisting : option ClassRef;
  useClass : option ClassRef;
  useFactory : option string;
  inject : option (list Token)
}.

Record DynamicModule := {
  module : ClassRef;
  module_imports : option (list ClassRef);
  providers : list Provider;
  exports : list ClassRef
}.

Definition McpModule : ClassRef := "McpModule".
Definition McpService : ClassRef := "McpService".
Definition ExplorerService : ClassRef := "ExplorerService".
Definition DiscoveryModule : ClassRef := "DiscoveryModule".

Definition forRoot (options : McpService.McpModuleOptions) : DynamicModule :=
  let optionsProvider := ValueProvider MCP_MODULE_OPTIONS options in
  {| module := McpModule;
     module_imports := None;
     providers := [optionsProvider; TypeProvider McpService; TypeProvider ExplorerService];
     exports := [McpService] |}.

Definition createAsyncOptionsProvider (options : McpModuleAsyncOptions) : Provider :=
  match useFactory options with
  | Some f =>
      FactoryProvider MCP_MODULE_OPTIONS (user_factory f) (default [] (inject options))
  | None =>
      let inject :=
        [token_of (match useClass options with
                   | Some c => Some c
                   | None => useExisting options
                   end)] in
      FactoryProvider MCP_MODULE_OPTIONS createMcpOptions_factory inject
  end.

Definition createAsyncProviders (options : McpModuleAsyncOptions) : list Provider :=
  if bool_decide (is_Some (useExisting options) ∨ is_Some (useFactory options)) then
    [createAsyncOptionsProvider options]
  else
    let useClass := token_of (useClass options) in
    [createAsyncOptionsProvider options; ClassProvider useClass useClass].

Definition forRootAsync (options : McpModuleAsyncOptions) : DynamicModule :=
  let asyncProviders := createAsyncProviders options in
  {| module := McpModule;
     module_imports := Some (default [] (imports options) ++ [DiscoveryModule]);
     providers := asyncProviders ++ [TypeProvider McpService; TypeProvider ExplorerService];
     exports := [McpService] |}.

End McpModuleStatic.

(* ===================================================================== *)
(** ** McpHttpService: the session-keyed transport multiplexer *)
(* ===================================================================== *)

Module McpHttpService.

(** [new SSEServerTransport(endpoint, res)]; the SDK mints [sessionId]. *)
Record SSEServerTransport := { sessionId : string; endpoint : string }.

(** The parts of an Express request the service reads. *)
Record Request := { query_sessionId : option string; body : string }.

(** An Express response; [close_listeners] are the closures registered with
    [res.on("close", ...)], each by the [sessionId] and [transport] it
    captured. *)
Record Response := {
  headersSent : bool;
  statusCode : nat;
  sent : list string;
  ended : bool;
  close_listeners : list (string * SSEServerTransport)
}.

Definition new_response : Response :=
  {| headersSent := false; statusCode := 200; sent := []; ended := false;
     close_listeners := [] |}.

Record t := {
  (** [this.transports], created by [{}] *)
  transports : gmap string SSEServerTransport;
  logger : list LogEntry;
  (** what [this.mcpService.getServer()] returns *)
  getServer : option McpService.McpServer;
  (** the transports [server.connect] has been called with *)
  connect_calls : list SSEServerTransport;
  (** the transports whose [close()] has been called, each with the
      registry as it was when the call was made *)
  close_calls : list (SSEServerTransport * gmap string SSEServerTransport);
  (** the requests handed to a transport's [handlePostMessage] *)
  post_calls : list (SSEServerTransport * Request)
}.

(** The service together with the response object of the request at hand. *)
Record World := { service : t; res : Response }.

Definition on_service (f : t → t) : Eff World unit :=
  modify (λ w, {| service := f (service w); res := res w |}).

Definition on_res (f : Response → Response) : Eff World unit :=
  modify (λ w, {| service := service w; res := f (res w) |}).

Definition set_transports (f : gmap string SSEServerTransport → gmap string SSEServerTransport)
    (s : t) : t :=
  {| transports := f (transports s); logger := logger s; getServer := getServer s;
     connect_calls := connect_calls s; close_calls := close_calls s;
     post_calls := post_calls s |}.

Definition add_log (lv : LogLevel) (msg : string) (s : t) : t :=
  {| transports := transports s;
     logger := logger s ++ [{| level := lv; text := msg |}];
     getServer := getServer s; connect_calls := connect_calls s;
     close_calls := close_calls s; post_calls := post_calls s |}.

Definition add_connect (tr : SSEServerTransport) (s : t) : t :=
  {| transports := transports s; logger := logger s; getServer := getServer s;
     connect_calls := connect_calls s ++ [tr]; close_calls := close_calls s;
     post_calls := post_calls s |}.

Definition add_close (tr : SSEServerTransport) (s : t) : t :=
  {| transports := transports s; logger := logger s; getServer := getServer s;
     connect_calls := connect_calls s;
     close_calls := close_calls s ++ [(tr, transports s)];
     post_calls := post_calls s |}.

Definition add_post (tr : SSEServerTransport) (req : Request) (s : t) : t :=
  {| transports := transports s; logger := logger s; getServer := getServer s;
     connect_calls := connect_calls s; close_calls := close_calls s;
     post_calls := post_calls s ++ [(tr, req)] |}.

Definition log_at (lv : LogLevel) (msg : string) : Eff World unit :=
  on_service (add_log lv msg).

Definition headers_sent_error : Js.Error :=
  {| Js.message := "Cannot set headers after they are sent to the client";
     Js.stack := "ERR_HTTP_HEADERS_SENT" |}.

(** [res.status(code).send(text)]: Express raises when the headers have
    already gone out. *)
Definition res_status_send (code : nat) (payload : string) : Eff World unit :=
  sent_already <- gets (λ w, headersSent (res w));;
  if sent_already : bool then throw headers_sent_error
  else
    on_res (λ r, {| headersSent := true; statusCode := code; sent := sent r ++ [payload];
                    ended := true; close_listeners := close_listeners r |}).

(** [res.end()] *)
Definition res_end : Eff World unit :=
  on_res (λ r, {| headersSent := true; statusCode := statusCode r; sent := sent r;
                  ended := true; close_listeners := close_listeners r |}).

(** [res.on("close", () => ...)] for the closure of [handleSSE]. *)
Definition res_on_close (sessionId : string) (transport : SSEServerTransport) : Eff World unit :=
  on_res (λ r, {| headersSent := headersSent r; statusCode := statusCode r; sent := sent r;
                  ended := ended r;
                  close_listeners := close_listeners r ++ [(sessionId, transport)] |}).

(** The body of the close listener up to and including the call
    [transport.close()], which returns a pending promise. *)
Definition close_listener (sessionId : string) (transport : SSEServerTransport) : Eff t unit :=
  modify (add_log LOG ("SSE connection closed: " +:+ sessionId));;
  modify (set_transports (λ m, Js.del m sessionId));;
  modify (add_close transport).

(** The stream of the response [r] closes: the listeners registered on [r]
    run, in the order of their registration. *)
Definition emit_close (r : Response) : Eff t unit :=
  ExplorerService.forEach (close_listeners r)
    (λ listener, close_listener listener.1 listener.2).

(** The [.catch] continuation, run when the promise of [transport.close()]
    settles: [None] when it resolved, [Some err] when it rejected. *)
Definition close_settled (outcome : option Js.Error) : Eff t unit :=
  match outcome with
  | None => ret tt
  | Some err => modify (add_log ERROR "Error closing transport on disconnect:")
  end.

(** The engine's [connect] as seen from here: it may write to the response
    (the SSE headers), then its promise resolves ([None]) or rejects. *)
Definition EngineConnect : Type :=
  SSEServerTransport → Response → Response * option Js.Error.

Definition server_connect (connect : EngineConnect) (transport : SSEServerTransport)
    : Eff World unit :=
  on_service (add_connect transport);;
  r <- gets res;;
  let '(r', outcome) := connect transport r in
  on_res (λ _, r');;
  match outcome with
  | None => ret tt
  | Some e => throw e
  end.

(** [handleSSE(res)]; [sessionId] is the one the new transport was given. *)
Definition handleSSE (sessionId : string) (connect : EngineConnect) : Eff World unit :=
  let transport := {| sessionId := sessionId; endpoint := "/api/mcp/messages" |} in
  on_service (set_transports (λ m, Js.set m sessionId transport));;
  log_at LOG ("New SSE connection established: " +:+ sessionId);;
  res_on_close sessionId transport;;
  try_catch
    (server <- gets (λ w, getServer (service w));;
     match server with
     | None =>
         log_at ERROR "MCP Server instance is not available.";;
         sent_already <- gets (λ w, headersSent (res w));;
         if sent_already : bool then ret tt
         else res_status_send 500 "MCP Server not initialized"
     | Some server => server_connect connect transport
     end)
    (λ error,
       log_at ERROR ("Error in SSE connection or during connect: " +:+ Js.message error);;
       sent_already <- gets (λ w, headersSent (res w));;
       if sent_already : bool then res_end
       else res_status_send 500 "Error establishing SSE connection").

(** A transport's [handlePostMessage] as seen from here: it may write to the
    response, then its promise resolves ([None]) or rejects. *)
Definition PostMessage : Type :=
  SSEServerTransport → Request → Response → Response * option Js.Error.

Definition not_a_function_error : Js.Error :=
  {| Js.message := "transport.handlePostMessage is not a function";
     Js.stack := "TypeError" |}.

(** [await transport.handlePostMessage(req, res)] for what
    [this.transports[sessionId]] gave. *)
Definition transport_handlePostMessage (handlePostMessage : PostMessage)
    (transport : Js.Read SSEServerTransport) (req : Request) : Eff World unit :=
  match transport with
  | Js.Own tr =>
      on_service (add_post tr req);;
      r <- gets res;;
      let '(r', outcome) := handlePostMessage tr req r in
      on_res (λ _, r');;
      match outcome with
      | None => ret tt
      | Some e => throw e
      end
  | Js.Inherited _ => throw not_a_function_error
  | Js.Undefined => throw McpModule.undefined_property_error
  end.

Definition handleMessage (req : Request) (handlePostMessage : PostMessage) : Eff World unit :=
  match Js.truthy (query_sessionId req) with
  | None =>
      log_at WARN "Message received without sessionId";;
      res_status_send 400 "Missing sessionId parameter"
  | Some sessionId =>
      transport <- gets (λ w, Js.get (transports (service w)) sessionId);;
      match transport with
      | Js.Undefined =>
          log_at WARN ("No active transport found for sessionId: " +:+ sessionId);;
          res_status_send 404 "No connection found for this sessionId"
      | _ =>
          try_catch
            (transport_handlePostMessage handlePostMessage transport req)
            (λ error,
               log_at ERROR ("Error handling message for session " +:+ sessionId +:+
                             ": " +:+ Js.message error);;
               sent_already <- gets (λ w, headersSent (res w));;
               if sent_already : bool then ret tt
               else res_status_send 500 "Error processing message")
      end
  end.

(** *** States used to state properties *)

Definition answered (code : nat) (payload : string) (r : Response) : Response :=
  {| headersSent := true; statusCode := code; sent := sent r ++ [payload]; ended := true;
     close_listeners := close_listeners r |}.

Definition listening (sessionId : string) (transport : SSEServerTransport) (r : Response)
    : Response :=
  {| headersSent := headersSent r; statusCode := statusCode r; sent := sent r;
     ended := ended r;
     close_listeners := close_listeners r ++ [(sessionId, transport)] |}.

Definition ended_stream (r : Response) : Response :=
  {| headersSent := true; statusCode := statusCode r; sent := sent r; ended := true;
     close_listeners := close_listeners r |}.

(** The service once [handleSSE] has registered the transport and logged. *)
Definition opened (sessionId : string) (transport : SSEServerTransport) (s : t) : t :=
  add_log LOG ("New SSE connection established: " +:+ sessionId)
    (set_transports (λ m, Js.set m sessionId transport) s).

End McpHttpService.

(* ===================================================================== *)
(** ** StderrLogger: the logger that keeps stdout for the protocol *)
(* ===================================================================== *)

Module StderrLogger.

(** Nest's [LogLevel]. *)
Inductive NestLogLevel := log | error | warn | debug | verbose | fatal.

Definition level_string (l : NestLogLevel) : string :=
  match l with
  | log => "log" | error => "error" | warn => "warn"
  | debug => "debug" | verbose => "verbose" | fatal => "fatal"
  end.

(** [String.prototype.toUpperCase] on the ASCII letters, which is all a log
    level consists of. *)
Definition upper (c : Ascii.ascii) : Ascii.ascii :=
  let n := Ascii.nat_of_ascii c in
  if (97 <=? n)%nat && (n <=? 122)%nat then Ascii.ascii_of_nat (n - 32) else c.

Fixpoint toUpperCase (s : string) : string :=
  match s with
  | EmptyString => EmptyString
  | String c rest => String (upper c) (toUpperCase rest)
  end.

Fixpoint spaces (n : nat) : string :=
  match n with
  | 0 => EmptyString
  | S n => String (Ascii.ascii_of_nat 32) (spaces n)
  end.

(** [s.padStart(targetLength, " ")] *)
Definition padStart (targetLength : nat) (s : string) : string :=
  spaces (targetLength - String.length s) +:+ s.

(** The methods inherited from [ConsoleLogger] that [printMessages] calls;
    [updateAndGetTimestampDiff] reads and updates the logger's last
    timestamp. *)
Record ConsoleLogger := {
  formatPid : nat → string;
  formatContext : string → string;
  updateAndGetTimestampDiff : nat → string * nat;
  formatMessage : NestLogLevel → string → string → string → string → string → string
}.

Inductive WriteStream := to_stdout | to_stderr.

(** The two output streams of the process and the logger's last timestamp. *)
Record State := { stdout : list string; stderr : list string; lastTimestampAt : nat }.

(** [process.stderr.write(chunk)] *)
Definition stderr_write (chunk : string) : Eff State unit :=
  modify (λ st, {| stdout := stdout st; stderr := stderr st ++ [chunk];
                   lastTimestampAt := lastTimestampAt st |}).

Definition update_timestamp (super : ConsoleLogger) : Eff State string :=
  λ st, let '(diff, at_) := updateAndGetTimestampDiff super (lastTimestampAt st) in
        (Returns diff, {| stdout := stdout st; stderr := stderr st; lastTimestampAt := at_ |}).

(** [printMessages(messages, context = "", logLevel = "log", writeStreamType?)];
    [pid] is [process.pid]. *)
Definition printMessages (super : ConsoleLogger) (pid : nat) (messages : list string)
    (context : option string) (logLevel : option NestLogLevel)
    (writeStreamType : option WriteStream) : Eff State unit :=
  let context := default EmptyString context in
  let logLevel := default log logLevel in
  ExplorerService.forEach messages (λ message,
    let pidMessage := formatPid super pid in
    let contextMessage := formatContext super context in
    timestampDiff <- update_timestamp super;;
    let formattedLogLevel := padStart 7 (toUpperCase (level_string logLevel)) in
    let formattedMessage :=
      formatMessage super logLevel message pidMessage formattedLogLevel contextMessage
                    timestampDiff in
    stderr_write formattedMessage).

(** The label [printMessages] hands to [formatMessage]. *)
Definition label (l : NestLogLevel) : string := padStart 7 (toUpperCase (level_string l)).

End StderrLogger.

(* ===================================================================== *)
(** ** Concrete inputs used to exercise the model *)
(* ===================================================================== *)

Module Samples.

Import McpService.

(** An SDK that accepts every call and every template. *)
Definition lenient_sdk : Sdk :=
  {| refuses := λ _ _, None; malformed := λ _, None |}.

(** The registry a registration call goes to, and its name. *)
Definition registry_key (c : EngineCall) : string * string :=
  match c with
  | resource_uri n _ _ _ | resource_template n _ _ _ => ("resource", n)
  | prompt_plain n _ _ | prompt_args n _ _ _ => ("prompt", n)
  | tool_description_schema n _ _ _ | tool_schema n _ _ | tool_description n _ _
  | tool_plain n _ => ("tool", n)
  end.

Definition already_registered : Js.Error :=
  {| Js.message := "already registered"; Js.stack := "Error" |}.

Definition unclosed_expression : Js.Error :=
  {| Js.message := "Unclosed template expression"; Js.stack := "Error" |}.

Definition open_brace : Ascii.ascii := Ascii.ascii_of_nat 123.
Definition close_brace : Ascii.ascii := Ascii.ascii_of_nat 125.

(** Whether a template ends inside an expression that an opening brace
    started. *)
Fixpoint unclosed (inside : bool) (template : string) : bool :=
  match template with
  | EmptyString => inside
  | String c rest =>
      if Ascii.eqb c open_brace then unclosed true rest
      else if Ascii.eqb c close_brace then unclosed false rest
      else unclosed inside rest
  end.

(** An SDK that refuses a name it has already received for the same kind of
    definition, and rejects a template with an unclosed expression. *)
Definition strict_sdk : Sdk :=
  {| refuses := λ history c,
       if decide (registry_key c ∈ registry_key <$> history)
       then Some already_registered else None;
     malformed := λ p, if unclosed false p then Some unclosed_expression else None |}.

Definition no_options : McpModuleOptions :=
  {| serverInfo := None; serverOptions := None; transport := None |}.

Definition service : McpService.t := constructor lenient_sdk no_options.

(** The same coordinator on the strict SDK. *)
Definition strict_service : McpService.t := constructor strict_sdk no_options.

(** A template resource whose template has an unclosed expression. *)
Definition unclosed_template_resource : ResourceOptions :=
  {| r_name := Some "user"; r_uri := None; r_uriTemplate := Some (UT_string "users://{id");
     r_description := None; r_metadata := None |}.

Definition greet : Handler := {| owner := 7; method := "greet" |}.

Definition arg (name : string) (required : bool) : PromptArgument :=
  {| a_name := Some name; a_description := None; a_required := Some required |}.

(** [[{name:"a",required:true},{name:"b",required:false}]] *)
Definition two_arguments : list PromptArgument := [arg "a" true; arg "b" false].

Definition two_argument_prompt : PromptType :=
  {| p_name := Some "greeting"; p_description := Some "Greets";
     p_arguments := Some two_arguments |}.

(** Two arguments carry the name [a]; the first one is required. *)
Definition duplicate_arguments : list PromptArgument := [arg "a" true; arg "a" false].

Definition duplicate_prompt : PromptType :=
  {| p_name := Some "greeting"; p_description := None;
     p_arguments := Some duplicate_arguments |}.

Definition add_tool : ToolOptions :=
  {| t_name := Some "add"; t_description := Some "adds"; t_paramsSchema := None |}.

Definition tool_decoration : ExplorerService.Decorations :=
  {| ExplorerService.resource_metadata := None;
     ExplorerService.tool_metadata :=
       Some {| ExplorerService.methodName := "add"; ExplorerService.options := Some add_tool |};
     ExplorerService.prompt_metadata := None |}.

(** A provider whose member [broken] shadows a prototype method with a
    number, next to a decorated method [add]. *)
Definition shadowed_provider : ExplorerService.InstanceWrapper :=
  {| ExplorerService.instance :=
       ExplorerService.instance_object 1 true
         [("broken", ExplorerService.member_primitive);
          ("add", ExplorerService.member_function tool_decoration)] |}.

(** A provider with the decorated method only. *)
Definition plain_provider : ExplorerService.InstanceWrapper :=
  {| ExplorerService.instance :=
       ExplorerService.instance_object 2 true
         [("add", ExplorerService.member_function tool_decoration)] |}.

Definition null_provider : ExplorerService.InstanceWrapper :=
  {| ExplorerService.instance := ExplorerService.instance_falsy |}.

Definition string_provider : ExplorerService.InstanceWrapper :=
  {| ExplorerService.instance := ExplorerService.instance_primitive |}.

Definition bare_provider : ExplorerService.InstanceWrapper :=
  {| ExplorerService.instance :=
       ExplorerService.instance_object 3 false
         [("add", ExplorerService.member_function tool_decoration)] |}.

Definition shadowed_container : ExplorerService.ModulesContainer :=
  [{| ExplorerService.providers := [shadowed_provider; plain_provider] |}].

Definition tolerant_container : ExplorerService.ModulesContainer :=
  [{| ExplorerService.providers := [null_provider; string_provider] |};
   {| ExplorerService.providers := [bare_provider; plain_provider] |}].

(** A module configured for the process-stream transport, about to boot. *)
Definition stdio_module : McpModule.t :=
  {| McpModule.explorerService := tolerant_container;
     McpModule.mcpService :=
       constructor lenient_sdk
         {| serverInfo := None; serverOptions := None; transport := Some STDIO |};
     McpModule.module_options :=
       {| serverInfo := None; serverOptions := None; transport := Some STDIO |};
     McpModule.logger := [];
     McpModule.connect_calls := [] |}.

Definition broken_pipe : Js.Error := {| Js.message := "EPIPE"; Js.stack := "Error: EPIPE" |}.

(** A multiplexer with no open session. *)
Definition idle_http : McpHttpService.t :=
  {| McpHttpService.transports := ∅; McpHttpService.logger := [];
     McpHttpService.getServer := Some (getServer service);
     McpHttpService.connect_calls := []; McpHttpService.close_calls := [];
     McpHttpService.post_calls := [] |}.

(** A multiplexer whose engine handle is absent. *)
Definition engineless_http : McpHttpService.t :=
  {| McpHttpService.transports := ∅; McpHttpService.logger := [];
     McpHttpService.getServer := None;
     McpHttpService.connect_calls := []; McpHttpService.close_calls := [];
     McpHttpService.post_calls := [] |}.

Definition world (s : McpHttpService.t) : McpHttpService.World :=
  {| McpHttpService.service := s; McpHttpService.res := McpHttpService.new_response |}.

(** [POST /api/mcp/messages?sessionId=constructor] *)
Definition forged_request : McpHttpService.Request :=
  {| McpHttpService.query_sessionId := Some "constructor"; McpHttpService.body := "{}" |}.

(** [POST /api/mcp/messages?sessionId=s1] *)
Definition request_s1 : McpHttpService.Request :=
  {| McpHttpService.query_sessionId := Some "s1"; McpHttpService.body := "{}" |}.

(** [POST /api/mcp/messages?sessionId=s2] *)
Definition request_s2 : McpHttpService.Request :=
  {| McpHttpService.query_sessionId := Some "s2"; McpHttpService.body := "{}" |}.

Definition transport_of (sessionId : string) : McpHttpService.SSEServerTransport :=
  {| McpHttpService.sessionId := sessionId; McpHttpService.endpoint := "/api/mcp/messages" |}.

(** Two open sessions, [s1] and [s2]. *)
Definition two_sessions : McpHttpService.t :=
  {| McpHttpService.transports :=
       {[ "s1" := transport_of "s1"; "s2" := transport_of "s2" ]};
     McpHttpService.logger := [];
     McpHttpService.getServer := Some (getServer service);
     McpHttpService.connect_calls := [transport_of "s1"; transport_of "s2"];
     McpHttpService.close_calls := []; McpHttpService.post_calls := [] |}.

(** A post-message handler that accepts the message with status 202. *)
Definition accepting : McpHttpService.PostMessage :=
  λ _ _ r, ({| McpHttpService.headersSent := true; McpHttpService.statusCode := 202;
               McpHttpService.sent := McpHttpService.sent r ++ ["Accepted"];
               McpHttpService.ended := true;
               McpHttpService.close_listeners := McpHttpService.close_listeners r |}, None).

(** [two_sessions] once the stream of [s1] has closed. *)
Definition s1_closed : McpHttpService.t :=
  (McpHttpService.close_listener "s1" (transport_of "s1") two_sessions).2.

(** An engine [connect] that writes the SSE headers, then rejects. *)
Definition failing_connect : McpHttpService.EngineConnect :=
  λ _ r, ({| McpHttpService.headersSent := true; McpHttpService.statusCode := 200;
             McpHttpService.sent := McpHttpService.sent r;
             McpHttpService.ended := McpHttpService.ended r;
             McpHttpService.close_listeners := McpHttpService.close_listeners r |},
          Some broken_pipe).

(** An engine [connect] that writes the SSE headers and resolves: the
    stream stays open. *)
Definition resolving_connect : McpHttpService.EngineConnect :=
  λ _ r, ({| McpHttpService.headersSent := true; McpHttpService.statusCode := 200;
             McpHttpService.sent := McpHttpService.sent r;
             McpHttpService.ended := McpHttpService.ended r;
             McpHttpService.close_listeners := McpHttpService.close_listeners r |},
          None).




(** A module one of whose providers makes the scan raise. *)
Definition shadowed_module : McpModule.t :=
  {| McpModule.explorerService := shadowed_container;
     McpModule.mcpService := service;
     McpModule.module_options :=
       {| serverInfo := None; serverOptions := None; transport := Some STDIO |};
     McpModule.logger := [];
     McpModule.connect_calls := [] |}.

(** A second provider with a tool named [add]. *)
Definition second_provider : ExplorerService.InstanceWrapper :=
  {| ExplorerService.instance :=
       ExplorerService.instance_object 5 true
         [("plus", ExplorerService.member_function tool_decoration)] |}.

(** A module with two tools of the same name, on the strict SDK. *)
Definition duplicate_tools_module : McpModule.t :=
  {| McpModule.explorerService :=
       [{| ExplorerService.providers := [plain_provider; second_provider] |}];
     McpModule.mcpService :=
       constructor strict_sdk
         {| serverInfo := None; serverOptions := None; transport := Some STDIO |};
     McpModule.module_options :=
       {| serverInfo := None; serverOptions := None; transport := Some STDIO |};
     McpModule.logger := [];
     McpModule.connect_calls := [] |}.

End Samples.

(** C2 as stated: in the synthesized schema every named argument has, under
    its name, a plain string schema if it is required and an
    optional-wrapped one if it is not. *)
Definition every_argument_maps_to_its_schema
    (arguments : list McpService.PromptArgument)
    (argsSchema : gmap string McpService.ZodSchema) : Prop :=
  ∀ a n, a ∈ arguments → McpService.a_name a = Some n → n ≠ EmptyString →
    (McpService.a_required a = Some true →
       argsSchema !! n =
         Some (McpService.ZodString (Js.truthy (McpService.a_description a))))
    ∧ (McpService.a_required a = Some false →
       argsSchema !! n =
         Some (McpService.ZodOptional
                 (McpService.ZodString (Js.truthy (McpService.a_description a))))).

(** *** What a scan should find *)

Module Scan.

Import McpService ExplorerService.

(** The exception reading and looking up a member raises, if any: a truthy
    member that is not an object makes [Reflect.getMetadata] raise. *)
Definition failure (m : Member) : option Js.Error :=
  match m with
  | member_primitive => Some type_error
  | member_throws e => Some e
  | member_falsy | member_function _ => None
  end.

(** The item a method contributes. *)
Definition found_method {T} (metadataKey : MetadataKey T) (id : nat) (m : string * Member)
    : list (DiscoveredItem T) :=
  match m.2 with
  | member_function d =>
      match metadataKey d with
      | Some metadata =>
          [{| item_instance := id; handler := {| owner := id; method := m.1 |};
              metadata := metadata |}]
      | None => []
      end
  | _ => []
  end.

(** The methods scanned on an instance: none unless it is an object with a
    constructor. *)
Definition scanned (w : InstanceWrapper) : list (string * Member) :=
  match instance w with
  | instance_object _ true methods => methods
  | _ => []
  end.

Definition found_in {T} (metadataKey : MetadataKey T) (w : InstanceWrapper)
    : list (DiscoveredItem T) :=
  match instance w with
  | instance_object id true methods => methods ≫= found_method metadataKey id
  | _ => []
  end.

(** No member that is scanned on [w] raises. *)
Definition quiet (w : InstanceWrapper) : Prop :=
  Forall (λ m, failure m.2 = None) (scanned w).

(** C8 as stated: whatever the managed instances are, [explore] returns a
    list. *)
Definition explore_always_returns : Prop :=
  ∀ (modulesContainer : ModulesContainer),
    ∃ items, explore MCP_TOOL_METADATA modulesContainer = Returns items.

End Scan.

(** *** Routing *)

Module Routing.

Import McpHttpService.

(** A message for session [k] reaches the transport [tr]. *)
Definition routable (s : t) (k : string) (tr : SSEServerTransport) : Prop :=
  ∀ (req : Request) (handlePostMessage : PostMessage) (r : Response),
    query_sessionId req = Some k →
    post_calls (service (handleMessage req handlePostMessage
                           {| service := s; res := r |}).2)
      = post_calls s ++ [(tr, req)].

(** C7 as stated, its registry part: with the engine handle absent and no
    byte flushed, no entry for the session is left when [handleSSE]
    returns. *)
Definition no_entry_left_without_engine : Prop :=
  ∀ (sessionId : string) (connect : EngineConnect) (w : World),
    getServer (service w) = None → headersSent (res w) = false →
    transports (service (handleSSE sessionId connect w).2) !! sessionId = None.

(** C1 as stated, its second case: a session id without a registry entry is
    answered 404. *)
Definition unknown_session_answers_404 : Prop :=
  ∀ (req : Request) (sessionId : string) (handlePostMessage : PostMessage) (s : t),
    query_sessionId req = Some sessionId → sessionId ≠ EmptyString →
    transports s !! sessionId = None →
    statusCode (res (handleMessage req handlePostMessage
                       {| service := s; res := new_response |}).2) = 404.

End Routing.

(** *** What the registration methods leave behind *)

Module Observations.

Import McpService.

(** [s] after the engine received [calls] and the logger [entries]. *)
Definition appended (calls : list EngineCall) (entries : list LogEntry) (s : t) : t :=
  {| server := {| sdk := sdk (server s); info := info (server s);
                  options := options (server s);
                  registrations := registrations (server s) ++ calls |};
     logger := logger s ++ entries |}.

(** The registrations the engine of [s'] has received since [s]. *)
Definition new_registrations (s s' : t) : list EngineCall :=
  drop (length (registrations (server s))) (registrations (server s')).

(** C4 as stated, its string case: a string [uriTemplate] is turned into a
    matcher, and the engine receives the registration of that matcher. *)
Definition string_template_is_registered : Prop :=
  ∀ (d : ResourceOptions) (name p : string) (h : Handler) (s : t),
    r_name d = Some name → name ≠ EmptyString →
    r_uriTemplate d = Some (UT_string p) →
    ∃ template,
      new_registrations s (registerResource d h s).2
      = [resource_template name template (default [] (r_metadata d)) h].

(** The key under which an argument ends up in the synthesized schema: its
    name when it is truthy and not [__proto__]. *)
Definition usable_name (a : PromptArgument) : option string :=
  match Js.truthy (a_name a) with
  | Some n => if decide (n = "__proto__") then None else Some n
  | None => None
  end.

End Observations.

(** *** How a scan ends *)

Module ScanOutcome.

Import ExplorerService Scan.

(** The exceptions the members scanned on a provider raise, in scan order. *)
Definition failures_in (w : InstanceWrapper) : list Js.Error :=
  omap (λ m, failure m.2) (scanned w).

(** The first exception a scan of the container meets, if any. *)
Definition first_failure (modulesContainer : ModulesContainer) : option Js.Error :=
  head ((modulesContainer ≫= providers) ≫= failures_in).

(** [item] stems from a decorated function member of [w]. *)
Definition discovered_from {T} (metadataKey : MetadataKey T) (w : InstanceWrapper)
    (item : DiscoveredItem T) : Prop :=
  ∃ id methods name d,
    instance w = instance_object id true methods
    ∧ (name, member_function d) ∈ methods
    ∧ metadataKey d = Some (metadata item)
    ∧ item_instance item = id
    ∧ handler item = {| McpService.owner := id; McpService.method := name |}.

End ScanOutcome.

(** *** The registration phase as calls on the coordinator *)

Module Pipeline.

Import McpService ExplorerService.

(** What registering one discovered resource does to the coordinator. *)
Definition register_resource_item (s : McpService.t) (item : DiscoveredItem ResourceOptions)
    : McpService.t :=
  match options (metadata item) with
  | Some definition => (registerResource definition (handler item) s).2
  | None => s
  end.

(** What one discovered tool does to the coordinator: nothing unless its
    options carry a truthy name. *)
Definition register_tool_item (s : McpService.t) (item : DiscoveredItem ToolOptions)
    : McpService.t :=
  match options (metadata item) with
  | Some definition =>
      match Js.truthy (t_name definition) with
      | Some _ => (registerTool (Some definition) (handler item) s).2
      | None => s
      end
  | None => s
  end.

Definition register_prompt_item (s : McpService.t) (item : DiscoveredItem PromptType)
    : McpService.t :=
  match options (metadata item) with
  | Some definition =>
      match Js.truthy (p_name definition) with
      | Some _ => (registerPrompt definition (handler item) s).2
      | None => s
      end
  | None => s
  end.

(** Resources first, then tools, then prompts, each in discovery order. *)
Definition register_all (resources : list (DiscoveredItem ResourceOptions))
    (tools : list (DiscoveredItem ToolOptions)) (prompts : list (DiscoveredItem PromptType))
    (s : McpService.t) : McpService.t :=
  foldl register_prompt_item
    (foldl register_tool_item (foldl register_resource_item s resources) tools) prompts.

(** The registration of a discovered resource, made on [s], returns. *)
Definition resource_registers (s : McpService.t) (item : DiscoveredItem ResourceOptions)
    : Prop :=
  ∃ definition r,
    options (metadata item) = Some definition
    ∧ (registerResource definition (handler item) s).1 = Returns r.

(** The registration of a discovered tool, if one is made on [s], returns. *)
Definition tool_registers (s : McpService.t) (item : DiscoveredItem ToolOptions) : Prop :=
  ∀ definition name,
    options (metadata item) = Some definition →
    Js.truthy (t_name definition) = Some name →
    ∃ r, (registerTool (Some definition) (handler item) s).1 = Returns r.

Definition prompt_registers (s : McpService.t) (item : DiscoveredItem PromptType) : Prop :=
  ∀ definition name,
    options (metadata item) = Some definition →
    Js.truthy (p_name definition) = Some name →
    ∃ r, (registerPrompt definition (handler item) s).1 = Returns r.

(** Each item of [l] registers, on the coordinator the items before it
    leave. *)
Fixpoint all_register {A} (registers : McpService.t → A → Prop)
    (step : McpService.t → A → McpService.t) (s : McpService.t) (l : list A) : Prop :=
  match l with
  | [] => True
  | item :: rest => registers s item ∧ all_register registers step (step s item) rest
  end.

(** C9 as stated, for the process-stream mode: the hook calls the engine's
    [connect] with a stream transport and completes without raising. *)
Definition stdio_bootstrap_connects : Prop :=
  ∀ (connect : McpServer → option Js.Error) (m : McpModule.t),
    transport (McpModule.module_options m) = Some STDIO →
    ∃ m', McpModule.onApplicationBootstrap connect m = (Returns tt, m')
          ∧ McpModule.connect_calls m'
            = McpModule.connect_calls m ++ [McpModule.StdioServerTransport].

(** The coordinator [s'] is [s] with registrations and log entries added. *)
Definition service_grows (s s' : McpService.t) : Prop :=
  ∃ calls entries, s' = Observations.appended calls entries s.

Definition keeps_growing {A} (c : Eff McpModule.t A) : Prop :=
  ∀ m r m', c m = (r, m') → service_grows (McpModule.mcpService m) (McpModule.mcpService m').

End Pipeline.

(** *** Several connections *)

Module Sessions.

Import McpHttpService.

(** The service facing a request with a response nothing was written to. *)
Definition fresh (s : t) : World := {| service := s; res := new_response |}.

(** The service after [handleSSE] ran for each session id in turn. *)
Definition open_all (connect : EngineConnect) (sessionIds : list string) (s : t) : t :=
  foldl (λ s sessionId, service (handleSSE sessionId connect (fresh s)).2) s sessionIds.

(** The transport [handleSSE] builds for a session id. *)
Definition transport_for (sessionId : string) : SSEServerTransport :=
  {| sessionId := sessionId; endpoint := "/api/mcp/messages" |}.

End Sessions.

(* ===================================================================== *)
(** * Properties *)
(* ===================================================================== *)

(** Unfolds the plumbing of [Eff]. *)
Ltac eff := cbv [bind ret modify gets throw try_catch].

Lemma truthy_None (v : option string) : Js.truthy v = None ↔ Js.absent_or_empty v.
Proof.
  unfold Js.truthy, Js.absent_or_empty. destruct v as [x|].
  - destruct (decide (x = EmptyString)) as [->|Hx].
    + split; [by right | done].
    + split; [done|]. intros [|[= ->]]; done.
  - split; [by left | done].
Qed.

Lemma truthy_Some (v : option string) (x : string) :
  Js.truthy v = Some x ↔ v = Some x ∧ x ≠ EmptyString.
Proof.
  unfold Js.truthy. destruct v as [y|].
  - destruct (decide (y = EmptyString)) as [->|Hy].
    + split; [done|]. intros [[= <-] Hx]. done.
    + split; [intros [= ->]; done | intros [[= ->] _]; done].
  - split; [done | intros [? _]; done].
Qed.

Lemma keys_length {V} (o : gmap string V) : length (Js.keys o) = size o.
Proof. unfold Js.keys. by rewrite length_fmap, length_map_to_list. Qed.

Lemma keys_empty_iff {V} (o : gmap string V) : length (Js.keys o) = 0 ↔ o = ∅.
Proof. rewrite keys_length. apply map_size_empty_iff. Qed.

Module McpServiceSpec.

Import McpService.

(** A method that ends with an engine call: the engine has received the
    call, and the method returns unless the engine refused it. *)
Lemma engine_then_ret {A} (c : EngineCall) (r : A) (s : t) :
  (engine c;; ret r) s = (engine_outcome s c r, registered c s).
Proof.
  unfold engine, engine_outcome, registered. eff.
  by destruct (refuses (sdk (server s)) (registrations (server s)) c).
Qed.

Lemma logged_engine_then_ret {A} (lv : LogLevel) (msg : string) (c : EngineCall) (r : A)
    (s : t) :
  (log_at lv msg;; engine c;; ret r) s
  = (engine_outcome s c r, registered c (logged lv msg s)).
Proof.
  unfold bind at 1. unfold log_at at 1, modify. fold (logged lv msg s).
  apply (engine_then_ret c r (logged lv msg s)).
Qed.

Lemma shape_has_keys (x : ZodRawShape) : 0 < length (Js.keys x) ↔ x ≠ ∅.
Proof.
  rewrite keys_length, <- map_size_non_empty_iff. lia.
Qed.

Lemma nonempty_shape_Some (p : option ZodRawShape) (sh : ZodRawShape) :
  nonempty_shape p = Some sh ↔ p = Some sh ∧ sh ≠ ∅.
Proof.
  unfold nonempty_shape. destruct p as [x|]; [|split; [done | intros [? _]; done]].
  pose proof (shape_has_keys x) as Hk.
  destruct (decide (0 < length (Js.keys x))) as [Hlt|Hge].
  - split; [intros [= ->]; split; [done | by apply Hk] | intros [[= ->] _]; done].
  - split; [done|]. intros [[= ->] Hne]. by apply Hk in Hne.
Qed.

Lemma nonempty_shape_None (p : option ZodRawShape) :
  nonempty_shape p = None ↔ p = None ∨ p = Some ∅.
Proof.
  unfold nonempty_shape. destruct p as [x|]; [|split; [by left | done]].
  pose proof (shape_has_keys x) as Hk.
  destruct (decide (0 < length (Js.keys x))) as [Hlt|Hge].
  - split; [done|]. intros [|[= ->]]; [done|]. by apply Hk in Hlt.
  - split; [|done]. intros _. right. f_equal.
    destruct (decide (x = ∅)) as [|Hne]; [done|]. by apply Hk in Hne.
Qed.

(** C10. When the module options carry no [serverInfo], the constructor
    still builds the engine, with the implementation info
    [{ name: 'nestjs-mcp-server', version: '0.0.1' }], the given server
    options and no registration; the constructor is a total function, so
    construction cannot fail. *)
Theorem constructor_defaults_serverInfo :
  ∀ (k : Sdk) (so : option ServerOptions) (tr : option TransportType),
    let s := constructor k {| serverInfo := None; serverOptions := so; transport := tr |} in
    info (getServer s) = {| impl_name := "nestjs-mcp-server"; impl_version := "0.0.1" |}
    ∧ options (getServer s) = so
    ∧ registrations (getServer s) = []
    ∧ logger s = [{| level := LOG; text := "McpServer instance created." |}].
Proof. intros k so tr. cbn. done. Qed.

(** C5. For a definition whose name is absent or empty, [registerResource],
    [registerTool] and [registerPrompt] each return normally, add one
    warning to the log and leave the engine as it was. *)
Theorem nameless_definition_never_reaches_engine :
  ∀ (rd : ResourceOptions) (td : ToolOptions) (pd : PromptType) (h : Handler) (s : t),
    Js.absent_or_empty (r_name rd) →
    Js.absent_or_empty (t_name td) →
    Js.absent_or_empty (p_name pd) →
    registerResource rd h s =
      (Returns nothing, logged WARN "Resource missing required name. Skipping registration." s)
    ∧ registerTool (Some td) h s =
      (Returns nothing, logged WARN "Tool definition missing required name. Skipping registration." s)
    ∧ registerPrompt pd h s =
      (Returns nothing, logged WARN "Prompt missing required name. Skipping registration." s)
    ∧ server (logged WARN "Resource missing required name. Skipping registration." s) = server s
    ∧ server (logged WARN "Tool definition missing required name. Skipping registration." s) = server s
    ∧ server (logged WARN "Prompt missing required name. Skipping registration." s) = server s.
Proof.
  intros rd td pd h s Hr Ht Hp.
  apply truthy_None in Hr, Ht, Hp.
  unfold registerResource, registerTool, registerPrompt. cbn [mbind option_bind].
  rewrite Hr, Ht, Hp. cbn. done.
Qed.

Lemma nameless_definition_never_reaches_engine_witness :
  let rd := {| r_name := None; r_uri := Some "file:///a"; r_uriTemplate := None;
               r_description := None; r_metadata := None |} in
  let td := {| t_name := Some EmptyString; t_description := Some "d"; t_paramsSchema := None |} in
  let pd := {| p_name := None; p_description := None; p_arguments := Some [] |} in
  let s := Samples.service in
  let h := {| owner := 0; method := "m" |} in
  registerResource rd h s =
     (Returns nothing, logged WARN "Resource missing required name. Skipping registration." s)
  ∧ registrations (server (registerTool (Some td) h s).2) = []
  ∧ registrations (server (registerPrompt pd h s).2) = [].
Proof.
  intros rd td pd s h.
  destruct (nameless_definition_never_reaches_engine rd td pd h s) as (Hr & Ht & Hp & _).
  - by left.
  - by right.
  - by left.
  - rewrite Hr, Ht, Hp. done.
Defined.

(** C3. For a tool definition with a non-empty name, [registerTool] makes
    exactly one engine call, chosen by whether a non-empty parameter shape is
    given and whether a description is given (a non-empty string: the code
    tests truthiness): name+description+schema+handler, name+schema+handler,
    name+description+handler or name+handler.  The call never carries an
    empty description or an empty shape.  [registerTool] returns after the
    call, unless the engine refuses it: then the engine's exception leaves
    [registerTool]. *)
Theorem registerTool_selects_matching_overload :
  ∀ (d : ToolOptions) (name : string) (h : Handler) (s : t),
    t_name d = Some name → name ≠ EmptyString →
    ∃ (call : EngineCall) (r : Returned),
      registerTool (Some d) h s =
        (engine_outcome s call r,
         registered call (logged LOG ("Registering tool: " +:+ name) s))
      ∧ (∀ sh de, t_paramsSchema d = Some sh → sh ≠ ∅ →
                  t_description d = Some de → de ≠ EmptyString →
                  call = tool_description_schema name de sh h)
      ∧ (∀ sh, t_paramsSchema d = Some sh → sh ≠ ∅ →
               Js.absent_or_empty (t_description d) →
               call = tool_schema name sh h)
      ∧ (∀ de, t_paramsSchema d = None ∨ t_paramsSchema d = Some ∅ →
               t_description d = Some de → de ≠ EmptyString →
               call = tool_description name de h)
      ∧ (t_paramsSchema d = None ∨ t_paramsSchema d = Some ∅ →
         Js.absent_or_empty (t_description d) →
         call = tool_plain name h)
      ∧ passed_description call ≠ Some EmptyString
      ∧ passed_shape call ≠ Some ∅.
Proof.
  intros d name h s Hn Hne.
  assert (Js.truthy (t_name d) = Some name) as Ht by by apply truthy_Some.
  unfold registerTool. cbn [mbind option_bind]. rewrite Ht.
  change ((λ n : string, (d, n)) <$> Some name) with (Some (d, name)). cbv beta iota.
  destruct (nonempty_shape (t_paramsSchema d)) as [sh|] eqn:Hsh;
    destruct (Js.truthy (t_description d)) as [de|] eqn:Hde.
  all: try apply nonempty_shape_Some in Hsh as [Hsh Hshne].
  all: try apply nonempty_shape_None in Hsh.
  all: try apply truthy_Some in Hde as [Hde Hdene].
  all: try apply truthy_None in Hde.
  all: eexists _, _; split; [apply logged_engine_then_ret|].
  all: repeat split; intros; cbn; unfold Js.absent_or_empty in *.
  all: repeat match goal with H : _ ∨ _ |- _ => destruct H end.
  all: congruence.
Qed.

Lemma registerTool_selects_matching_overload_witness :
  let s := Samples.service in
  let h := {| owner := 1; method := "add" |} in
  let sh : ZodRawShape := {[ "a" := ZodString None ]} in
  let d := {| t_name := Some "add"; t_description := Some "adds"; t_paramsSchema := Some sh |} in
  registrations (server (registerTool (Some d) h s).2) = [tool_description_schema "add" "adds" sh h].
Proof.
  intros s h sh d.
  destruct (registerTool_selects_matching_overload d "add" h s) as (call & r & Hrun & H1 & _);
    [reflexivity | discriminate |].
  rewrite Hrun. cbn. f_equal. apply (H1 sh "adds"); [reflexivity | | reflexivity | discriminate].
  intros Hempty. apply (f_equal size) in Hempty. vm_compute in Hempty. discriminate.
Defined.

(** C4 (as amended). For a resource definition with a non-empty name, the
    definition is treated as a template resource exactly when it carries a
    [uriTemplate] field.  For a string [uriTemplate] the matcher is built
    first: when its constructor rejects the string, that exception leaves
    [registerResource] and the engine receives no call; otherwise the new
    matcher is handed to the engine.  A matcher is handed to the engine as it
    is; any other [uriTemplate] value logs an error, registers nothing and
    returns normally; a definition without the field is handed to the engine
    with its [uri].  Metadata defaults to empty.  After an engine call
    [registerResource] returns, unless the engine refuses the call. *)
Theorem registerResource_classifies_by_uriTemplate :
  ∀ (d : ResourceOptions) (name : string) (h : Handler) (s : t),
    r_name d = Some name → name ≠ EmptyString →
    let s0 := logged LOG ("Registering resource: " +:+ name) s in
    let metadata := default [] (r_metadata d) in
    (isTemplateResource d = true ↔ is_Some (r_uriTemplate d))
    ∧ (∀ p, r_uriTemplate d = Some (UT_string p) →
            registerResource d h s =
              match malformed (sdk (server s)) p with
              | Some e => (Raises e, s0)
              | None =>
                  let call :=
                    resource_template name {| pattern := p; list_callback := None |}
                                      metadata h in
                  (engine_outcome s call call_result, registered call s0)
              end)
    ∧ (∀ tpl, r_uriTemplate d = Some (UT_instance tpl) →
              registerResource d h s =
                (engine_outcome s (resource_template name tpl metadata h) call_result,
                 registered (resource_template name tpl metadata h) s0))
    ∧ (∀ v, r_uriTemplate d = Some (UT_other v) →
            registerResource d h s =
              (Returns nothing, logged ERROR "Invalid uriTemplate type for template resource." s0)
            ∧ server (logged ERROR "Invalid uriTemplate type for template resource." s0) = server s)
    ∧ (r_uriTemplate d = None →
       registerResource d h s =
         (engine_outcome s (resource_uri name (r_uri d) metadata h) call_result,
          registered (resource_uri name (r_uri d) metadata h) s0)).
Proof.
  intros d name h s Hn Hne s0 metadata.
  assert (Js.truthy (r_name d) = Some name) as Ht by by apply truthy_Some.
  split; [unfold isTemplateResource; apply bool_decide_eq_true|].
  unfold registerResource, isTemplateResource. rewrite Ht.
  repeat split; intros; match goal with H : r_uriTemplate d = _ |- _ => rewrite H end.
  - rewrite bool_decide_true by (by eexists).
    unfold bind at 1. unfold log_at at 1, modify.
    fold (logged LOG ("Registering resource: " +:+ name) s). fold s0.
    unfold bind at 1, new_ResourceTemplate. unfold bind at 1, gets.
    change (sdk (server s0)) with (sdk (server s)).
    destruct (malformed (sdk (server s)) p) as [e|]; [reflexivity|].
    apply (engine_then_ret _ call_result s0).
  - rewrite bool_decide_true by (by eexists). apply logged_engine_then_ret.
  - reflexivity.
  - rewrite bool_decide_false by (by intros [? ?]). apply logged_engine_then_ret.
Qed.

Lemma registerResource_classifies_by_uriTemplate_witness :
  let s := Samples.service in
  let h := {| owner := 2; method := "read" |} in
  let d := {| r_name := Some "user"; r_uri := None; r_uriTemplate := Some (UT_string "users://{id}");
              r_description := None; r_metadata := None |} in
  registrations (server (registerResource d h s).2) =
    [resource_template "user" {| pattern := "users://{id}"; list_callback := None |} [] h].
Proof.
  intros s h d.
  destruct (registerResource_classifies_by_uriTemplate d "user" h s) as (_ & Hstr & _);
    [reflexivity | discriminate |].
  rewrite (Hstr "users://{id}"); reflexivity.
Defined.

(** C4 as stated fails for a string the matcher's constructor rejects: with
    the template [users://{id] on the strict SDK the constructor's exception
    leaves [registerResource] and the engine receives nothing. *)
Lemma registerResource_rejected_template_counterexample :
  registerResource Samples.unclosed_template_resource Samples.greet Samples.strict_service
    = (Raises Samples.unclosed_expression,
       logged LOG "Registering resource: user" Samples.strict_service)
  ∧ ¬ Observations.string_template_is_registered.
Proof.
  split; [vm_compute; reflexivity|].
  intros Hclaim.
  destruct (Hclaim Samples.unclosed_template_resource "user" "users://{id" Samples.greet
                   Samples.strict_service) as [template Hreg];
    [reflexivity | discriminate | reflexivity |].
  vm_compute in Hreg. discriminate.
Qed.

(** *** registerPrompt *)

Lemma registerPrompt_loop_run (promptName : string) (arguments : list PromptArgument) :
  ∀ (acc : PromptArgsRawShape) (s : t),
    registerPrompt_loop promptName arguments acc s =
      (Returns (foldl loop_step acc arguments),
       {| server := server s; logger := logger s ++ nameless_warnings promptName arguments |}).
Proof.
  induction arguments as [|arg rest IH]; intros acc s.
  - cbn. unfold ret. rewrite app_nil_r. by destruct s.
  - cbn [registerPrompt_loop foldl]. unfold loop_step at 2, nameless_warnings.
    rewrite filter_cons. destruct (Js.truthy (a_name arg)) as [n|] eqn:Hn.
    + rewrite decide_False by done. apply IH.
    + rewrite decide_True by done. unfold log_at. eff. rewrite IH. cbn.
      unfold nameless_warnings. by rewrite <- app_assoc.
Qed.

Lemma loop_step_lookup (acc : PromptArgsRawShape) (arg : PromptArgument) (k : string) :
  k ≠ "__proto__" →
  loop_step acc arg !! k =
    if decide (Js.truthy (a_name arg) = Some k) then Some (argument_schema arg) else acc !! k.
Proof.
  intros Hk. unfold loop_step, Js.set. destruct (Js.truthy (a_name arg)) as [n|].
  - destruct (decide (n = "__proto__")) as [->|Hn].
    + rewrite decide_False; [done|]. by intros [= <-].
    + destruct (decide (n = k)) as [->|Hnk].
      * rewrite decide_True by done. apply lookup_insert_eq.
      * rewrite decide_False by (by intros [= ->]). by apply lookup_insert_ne.
  - by rewrite decide_False.
Qed.

Lemma foldl_loop_step_lookup (arguments : list PromptArgument) (acc : PromptArgsRawShape)
    (k : string) :
  k ≠ "__proto__" →
  foldl loop_step acc arguments !! k =
    match last (arguments_named k arguments) with
    | Some a => Some (argument_schema a)
    | None => acc !! k
    end.
Proof.
  intros Hk. induction arguments as [|arg rest IH] using rev_ind.
  - done.
  - rewrite foldl_app. cbn [foldl]. rewrite loop_step_lookup by done.
    unfold arguments_named in *. rewrite filter_app, filter_cons, filter_nil.
    destruct (decide (Js.truthy (a_name arg) = Some k)).
    + by rewrite last_snoc.
    + by rewrite app_nil_r.
Qed.

Lemma argument_schema_required (a : PromptArgument) :
  a_required a = Some true → argument_schema a = ZodString (Js.truthy (a_description a)).
Proof.
  intros Hr. unfold argument_schema. rewrite Hr.
  by destruct (Js.truthy (a_description a)).
Qed.

Lemma argument_schema_not_required (a : PromptArgument) :
  a_required a ≠ Some true →
  argument_schema a = ZodOptional (ZodString (Js.truthy (a_description a))).
Proof.
  intros Hr. unfold argument_schema.
  destruct (a_required a) as [[]|]; [done| |]; by destruct (Js.truthy (a_description a)).
Qed.

(** C2 (as amended). For a prompt definition with a non-empty name and a
    non-empty argument list, [registerPrompt] hands the engine exactly one
    registration call, and returns after it unless the engine refuses the
    call: then the engine's exception leaves [registerPrompt].  The schema it
    synthesizes is keyed by argument name: the entry of a name (other than
    [__proto__]) is that of the last argument carrying it, a plain string
    schema when that argument's [required] is true and an optional-wrapped
    one otherwise.  Each argument without a name is dropped with a warning.
    When the schema has no entry the call is the one of a zero-argument
    prompt, after a warning. *)
Theorem registerPrompt_synthesizes_argument_schema :
  ∀ (d : PromptType) (name : string) (arguments : list PromptArgument) (h : Handler) (s : t),
    p_name d = Some name → name ≠ EmptyString →
    p_arguments d = Some arguments → arguments ≠ [] →
    let description := default EmptyString (p_description d) in
    let s1 := {| server := server s;
                 logger := logger s ++
                   {| level := LOG; text := "Registering prompt: " +:+ name |}
                   :: nameless_warnings name arguments |} in
    ∃ argsSchema : PromptArgsRawShape,
      (∀ k, k ≠ "__proto__" →
            argsSchema !! k = argument_schema <$> last (arguments_named k arguments))
      ∧ (∀ a, a_required a = Some true →
              argument_schema a = ZodString (Js.truthy (a_description a)))
      ∧ (∀ a, a_required a ≠ Some true →
              argument_schema a = ZodOptional (ZodString (Js.truthy (a_description a))))
      ∧ length (nameless_warnings name arguments) =
          length (filter (λ a, Js.absent_or_empty (a_name a)) arguments)
      ∧ (argsSchema = ∅ →
         registerPrompt d h s =
           (engine_outcome s (prompt_plain name description h) call_result,
            registered (prompt_plain name description h)
              (logged WARN ("Prompt " +:+ Js.dquote +:+ name +:+ Js.dquote +:+
                 " arguments processing resulted in empty schema. Registering as no-argument prompt.")
                 s1)))
      ∧ (argsSchema ≠ ∅ →
         registerPrompt d h s =
           (engine_outcome s (prompt_args name description argsSchema h) call_result,
            registered (prompt_args name description argsSchema h) s1)).
Proof.
  intros d name arguments h s Hn Hne Ha Hargs description s1.
  assert (Js.truthy (p_name d) = Some name) as Ht by by apply truthy_Some.
  assert (default EmptyString (Js.truthy (p_description d)) = description) as Hd.
  { unfold description, Js.truthy. destruct (p_description d) as [x|]; [|done].
    by destruct (decide (x = EmptyString)) as [->|]. }
  exists (foldl loop_step ∅ arguments).
  split; [|split; [|split; [|split; [|split]]]].
  - intros k Hk. rewrite foldl_loop_step_lookup by done.
    destruct (last (arguments_named k arguments)); [done|]. apply lookup_empty.
  - apply argument_schema_required.
  - apply argument_schema_not_required.
  - unfold nameless_warnings. rewrite length_fmap. f_equal.
    apply list_filter_iff. intros a. apply truthy_None.
  - intros Hempty. unfold registerPrompt. rewrite Ht, Ha, Hd.
    destruct arguments as [|a0 rest]; [done|].
    unfold log_at. eff. rewrite registerPrompt_loop_run.
    rewrite decide_True by (by apply keys_empty_iff).
    unfold engine, engine_outcome. eff. cbn [server logger sdk registrations].
    destruct (refuses (sdk (server s)) (registrations (server s))
                (prompt_plain name description h));
      unfold registered, logged, s1; cbn [server logger sdk info options registrations];
      by rewrite <- !app_assoc.
  - intros Hnonempty. unfold registerPrompt. rewrite Ht, Ha, Hd.
    destruct arguments as [|a0 rest]; [done|].
    unfold log_at. eff. rewrite registerPrompt_loop_run.
    rewrite decide_False by (by rewrite keys_empty_iff).
    unfold engine, engine_outcome. eff. cbn [server logger sdk registrations].
    destruct (refuses (sdk (server s)) (registrations (server s))
                (prompt_args name description (foldl loop_step ∅ (a0 :: rest)) h));
      unfold registered, s1; cbn [server logger sdk info options registrations];
      by rewrite <- !app_assoc.
Qed.

Lemma registerPrompt_synthesizes_argument_schema_witness :
  ∃ argsSchema : PromptArgsRawShape,
    argsSchema !! "a" = Some (ZodString None)
    ∧ argsSchema !! "b" = Some (ZodOptional (ZodString None))
    ∧ registrations (server (registerPrompt Samples.two_argument_prompt Samples.greet
                                            Samples.service).2)
      = [prompt_args "greeting" "Greets" argsSchema Samples.greet].
Proof.
  destruct (registerPrompt_synthesizes_argument_schema
              Samples.two_argument_prompt "greeting" Samples.two_arguments
              Samples.greet Samples.service)
    as (argsSchema & Hentry & _ & _ & _ & _ & Hrun);
    [reflexivity | discriminate | reflexivity | discriminate |].
  assert (argsSchema !! "a" = Some (ZodString None)) as Ha
    by (rewrite Hentry by discriminate; reflexivity).
  exists argsSchema. split; [exact Ha|]. split.
  - rewrite Hentry by discriminate. reflexivity.
  - rewrite Hrun; [reflexivity|]. intros ->. by rewrite lookup_empty in Ha.
Defined.

(** C2 as stated fails when two arguments share a name: the schema keeps
    one entry per name, the later argument's, so the required argument [a]
    of [Samples.duplicate_arguments] ends up optional. *)
Lemma registerPrompt_duplicate_names_counterexample :
  registrations (server (registerPrompt Samples.duplicate_prompt Samples.greet
                                        Samples.service).2)
    = [prompt_args "greeting" EmptyString {[ "a" := ZodOptional (ZodString None) ]}
                   Samples.greet]
  ∧ ¬ every_argument_maps_to_its_schema Samples.duplicate_arguments
        {[ "a" := ZodOptional (ZodString None) ]}.
Proof.
  split; [vm_compute; reflexivity|].
  intros Hclaim.
  destruct (Hclaim (Samples.arg "a" true) "a") as [Hreq _];
    [apply list_elem_of_here | reflexivity | discriminate |].
  specialize (Hreq eq_refl). rewrite lookup_singleton_eq in Hreq. discriminate.
Qed.

End McpServiceSpec.

Module ExplorerServiceSpec.

Import McpService ExplorerService Scan.

Lemma forEach_app {S A} (l1 l2 : list A) (f : A → Eff S unit) (s : S) :
  forEach (l1 ++ l2) f s =
    match forEach l1 f s with
    | (Returns _, s') => forEach l2 f s'
    | (Raises e, s') => (Raises e, s')
    end.
Proof.
  revert s. induction l1 as [|x l1 IH]; intros s; [done|].
  cbn [forEach app]. unfold bind. destruct (f x s) as [[[]|e] s']; [apply IH|done].
Qed.

Lemma explore_method_quiet {T} (metadataKey : MetadataKey T) (id : nat)
    (m : string * Member) (acc : list (DiscoveredItem T)) :
  failure m.2 = None →
  explore_method metadataKey id m acc = (Returns tt, acc ++ found_method metadataKey id m).
Proof.
  destruct m as [n [| d | | e]]; cbn; try done.
  - intros _. unfold ret. by rewrite app_nil_r.
  - intros _. unfold found_method. cbn. destruct (metadataKey d); [done|].
    unfold ret. by rewrite app_nil_r.
Qed.

Lemma explore_method_raises {T} (metadataKey : MetadataKey T) (id : nat)
    (m : string * Member) (e : Js.Error) (acc : list (DiscoveredItem T)) :
  failure m.2 = Some e →
  explore_method metadataKey id m acc = (Raises e, acc).
Proof. destruct m as [n [| d | | e']]; cbn; try done; by intros [= ->]. Qed.

Lemma forEach_methods_quiet {T} (metadataKey : MetadataKey T) (id : nat)
    (methods : list (string * Member)) :
  ∀ acc : list (DiscoveredItem T),
    Forall (λ m, failure m.2 = None) methods →
    forEach methods (explore_method metadataKey id) acc =
      (Returns tt, acc ++ (methods ≫= found_method metadataKey id)).
Proof.
  induction methods as [|m rest IH]; intros acc Hq.
  - cbn. unfold ret. by rewrite app_nil_r.
  - inversion Hq as [|? ? Hm Hrest]; subst.
    cbn [forEach]. unfold bind. rewrite explore_method_quiet by done.
    rewrite IH by done. cbn. by rewrite <- app_assoc.
Qed.

Lemma explore_component_quiet {T} (metadataKey : MetadataKey T) (w : InstanceWrapper)
    (acc : list (DiscoveredItem T)) :
  quiet w →
  explore_component metadataKey w acc = (Returns tt, acc ++ found_in metadataKey w).
Proof.
  unfold quiet, scanned, explore_component, found_in.
  destruct (instance w) as [| | id [] methods]; intros Hq;
    try (unfold ret; by rewrite app_nil_r).
  by apply forEach_methods_quiet.
Qed.

Lemma forEach_components_quiet {T} (metadataKey : MetadataKey T)
    (components : list InstanceWrapper) :
  ∀ acc : list (DiscoveredItem T),
    Forall quiet components →
    forEach components (explore_component metadataKey) acc =
      (Returns tt, acc ++ (components ≫= found_in metadataKey)).
Proof.
  induction components as [|w rest IH]; intros acc Hq.
  - cbn. unfold ret. by rewrite app_nil_r.
  - inversion Hq as [|? ? Hw Hrest]; subst.
    cbn [forEach]. unfold bind. rewrite explore_component_quiet by done.
    rewrite IH by done. cbn. by rewrite <- app_assoc.
Qed.

Lemma found_in_filter {T} (metadataKey : MetadataKey T) (components : list InstanceWrapper) :
  filter (λ wrapper, is_truthy (instance wrapper) = true) components ≫= found_in metadataKey
  = components ≫= found_in metadataKey.
Proof.
  induction components as [|w rest IH]; [done|].
  rewrite filter_cons. destruct (decide (is_truthy (instance w) = true)) as [|Hf].
  - cbn. by rewrite IH.
  - cbn. rewrite IH. unfold found_in at 2. by destruct (instance w).
Qed.

(** C8 (as amended). [explore] skips an instance that is falsy, not an
    object or without a constructor, and a member that is falsy.  When no
    scanned member raises, it returns the items of all decorated methods, in
    scan order.  It does not catch: the first read or lookup that raises
    ends the scan, and the exception leaves [explore]. *)
Theorem explore_returns_unless_a_lookup_raises :
  ∀ {T} (metadataKey : MetadataKey T) (modulesContainer : ModulesContainer),
    (Forall quiet (modulesContainer ≫= providers) →
     explore metadataKey modulesContainer =
       Returns ((modulesContainer ≫= providers) ≫= found_in metadataKey))
    ∧ (∀ w, (instance w = instance_falsy ∨ instance w = instance_primitive
             ∨ ∃ id methods, instance w = instance_object id false methods) →
            found_in metadataKey w = [] ∧ quiet w)
    ∧ (∀ before w after id methods name m rest e,
         modulesContainer ≫= providers = before ++ w :: after →
         Forall quiet before →
         instance w = instance_object id true (methods ++ (name, m) :: rest) →
         Forall (λ m, failure m.2 = None) methods →
         failure m = Some e →
         explore metadataKey modulesContainer = Raises e).
Proof.
  intros T metadataKey modulesContainer. split; [|split].
  - intros Hq. unfold explore.
    rewrite forEach_components_quiet.
    + cbn. by rewrite found_in_filter.
    + apply Forall_forall. intros w Hw. apply list_elem_of_filter in Hw as [_ Hw].
      rewrite Forall_forall in Hq. by apply Hq.
  - intros w Hw. unfold found_in, quiet, scanned.
    destruct Hw as [-> | [-> | (id & methods & ->)]]; by split.
  - intros before w after id methods name m rest e Hc Hbefore Hw Hmethods Hm.
    unfold explore. rewrite Hc, filter_app, filter_cons.
    rewrite decide_True by (by rewrite Hw).
    rewrite forEach_app, forEach_components_quiet.
    + cbn [forEach]. unfold bind, explore_component. rewrite Hw.
      rewrite forEach_app, forEach_methods_quiet by done.
      cbn [forEach]. unfold bind. by rewrite (explore_method_raises _ _ (name, m) e).
    + apply Forall_forall. intros x Hx. apply list_elem_of_filter in Hx as [_ Hx].
      rewrite Forall_forall in Hbefore. by apply Hbefore.
Qed.

Lemma explore_returns_unless_a_lookup_raises_witness :
  explore MCP_TOOL_METADATA Samples.tolerant_container =
    Returns [{| item_instance := 2; handler := {| owner := 2; method := "add" |};
                metadata := {| methodName := "add"; options := Some Samples.add_tool |} |}].
Proof.
  destruct (explore_returns_unless_a_lookup_raises MCP_TOOL_METADATA Samples.tolerant_container)
    as [Hquiet _].
  rewrite Hquiet; [reflexivity|].
  repeat constructor.
Defined.

(** C8 as stated fails: a member that shadows a method with a number makes
    the metadata lookup raise, and the scan of [Samples.shadowed_container]
    ends there instead of returning the decorated [add] methods. *)
Lemma explore_aborts_on_failing_lookup :
  explore MCP_TOOL_METADATA Samples.shadowed_container = Raises type_error
  ∧ ¬ explore_always_returns.
Proof.
  assert (explore MCP_TOOL_METADATA Samples.shadowed_container = Raises type_error) as Hraise
    by reflexivity.
  split; [exact Hraise|].
  intros Hclaim. destruct (Hclaim Samples.shadowed_container) as [items Hitems].
  rewrite Hraise in Hitems. discriminate.
Qed.

End ExplorerServiceSpec.

Module McpModuleSpec.

Import McpModule.

Lemma frame_refl (m : t) : frame m m.
Proof. by repeat split. Qed.

Lemma frame_trans (m1 m2 m3 : t) : frame m1 m2 → frame m2 m3 → frame m1 m3.
Proof. unfold frame. intros (-> & -> & ->) (-> & -> & ->). done. Qed.

Lemma preserves_ret {A} (a : A) : preserves (ret a).
Proof. intros m r m' [= <- <-]. apply frame_refl. Qed.

Lemma preserves_throw {A} (e : Js.Error) : preserves (@throw t A e).
Proof. intros m r m' [= <- <-]. apply frame_refl. Qed.

Lemma preserves_bind {A B} (c : Eff t A) (k : A → Eff t B) :
  preserves c → (∀ a, preserves (k a)) → preserves (bind c k).
Proof.
  intros Hc Hk m r m'. unfold bind. destruct (c m) as [[a|e] m1] eqn:Hrun.
  - intros Hrest. eapply frame_trans; [by eapply Hc | by eapply Hk].
  - intros [= <- <-]. by eapply Hc.
Qed.

Lemma preserves_log_at (lv : LogLevel) (msg : string) : preserves (log_at lv msg).
Proof. intros m r m' [= <- <-]. by repeat split. Qed.

Lemma preserves_in_service {A} (c : Eff McpService.t A) : preserves (in_service c).
Proof.
  intros m r m'. unfold in_service. destruct (c (mcpService m)) as [r0 s0].
  intros [= <- <-]. by repeat split.
Qed.

Lemma preserves_in_explorer {A} (c : ExplorerService.ModulesContainer → Completion A) :
  preserves (in_explorer c).
Proof. intros m r m' [= <- <-]. apply frame_refl. Qed.

Lemma preserves_forEach {A} (l : list A) (f : A → Eff t unit) :
  (∀ x, preserves (f x)) → preserves (ExplorerService.forEach l f).
Proof.
  intros Hf. induction l as [|x l IH]; cbn [ExplorerService.forEach].
  - apply preserves_ret.
  - apply preserves_bind; [apply Hf | intros _; apply IH].
Qed.

Lemma preserves_registerMcpHandlers : preserves registerMcpHandlers.
Proof.
  unfold registerMcpHandlers.
  repeat first
    [ apply preserves_bind; [|intros ?]
    | apply preserves_forEach; intros ?
    | apply preserves_in_explorer
    | apply preserves_in_service
    | apply preserves_log_at
    | apply preserves_throw
    | apply preserves_ret
    | match goal with |- preserves (match ?x with _ => _ end) => destruct x end ].
Qed.

(** C9 (as amended). The bootstrap hook first runs discovery and
    registration, outside any [try]: an exception raised there leaves the
    hook, and no connection is attempted, whatever the transport.  Once they
    have returned, the hook returns normally.  It constructs a stream
    transport and calls the engine's [connect] exactly when the configured
    transport is the process-stream one; a [connect] that rejects is logged
    as an error and not raised; for any other configuration no connection is
    attempted. *)
Theorem onApplicationBootstrap_connects_only_for_stdio :
  ∀ (connect : McpService.McpServer → option Js.Error) (m m1 : t) (c : Completion unit),
    registerMcpHandlers (logged LOG "Bootstrapping MCP Module..." m) = (c, m1) →
    match c with
    | Raises e =>
        onApplicationBootstrap connect m = (Raises e, m1)
        ∧ connect_calls m1 = connect_calls m
    | Returns _ =>
        ∃ m', onApplicationBootstrap connect m = (Returns tt, m')
          ∧ mcpService m' = mcpService m1
          ∧ (McpService.transport (module_options m) = Some McpService.STDIO →
               connect_calls m' = connect_calls m ++ [StdioServerTransport]
               ∧ (∀ e, connect (McpService.getServer (mcpService m1)) = Some e →
                       errors (logger m') =
                         errors (logger m1)
                         ++ ["Failed to connect McpServer to stdio transport:"])
               ∧ (connect (McpService.getServer (mcpService m1)) = None →
                  errors (logger m') = errors (logger m1)))
          ∧ (McpService.transport (module_options m) ≠ Some McpService.STDIO →
               connect_calls m' = connect_calls m
               ∧ errors (logger m') = errors (logger m1))
    end.
Proof.
  intros connect m m1 c Hreg.
  destruct (preserves_registerMcpHandlers _ _ _ Hreg) as (_ & Hopts & Hcalls).
  cbn in Hopts, Hcalls.
  destruct c as [[]|e].
  2: { split; [|exact Hcalls].
       unfold onApplicationBootstrap, log_at at 1. eff.
       fold (logged LOG "Bootstrapping MCP Module..." m). by rewrite Hreg. }
  unfold onApplicationBootstrap, log_at at 1. eff.
  fold (logged LOG "Bootstrapping MCP Module..." m). rewrite Hreg.
  unfold is_stdio, server_connect, log_at. eff.
  cbn [explorerService mcpService module_options logger connect_calls].
  rewrite Hopts, Hcalls.
  destruct (McpService.transport (module_options m)) as [[]|] eqn:Htr;
    cbv beta iota; cbn [explorerService mcpService module_options logger connect_calls].
  2-4: eexists; split; [reflexivity|]; cbn; split; [done|]; split; [done|];
       intros _; split; [done|];
       unfold errors; rewrite !filter_app; cbn; by rewrite !app_nil_r.
  destruct (connect (McpService.getServer (mcpService m1))) as [e|] eqn:Hc.
  all: eexists; split; [reflexivity|]; cbn; split; [done|]; split; [|done].
  all: intros _; split; [done|].
  all: split; [|try done]; try done.
  all: intros; unfold errors; rewrite !filter_app, ?fmap_app; cbn; by rewrite ?app_nil_r.
Qed.

Lemma onApplicationBootstrap_connects_only_for_stdio_witness :
  ∃ m', onApplicationBootstrap (λ _, Some Samples.broken_pipe) Samples.stdio_module
          = (Returns tt, m')
    ∧ connect_calls m' = [StdioServerTransport]
    ∧ errors (logger m') = ["Failed to connect McpServer to stdio transport:"].
Proof.
  pose proof (onApplicationBootstrap_connects_only_for_stdio
                (λ _, Some Samples.broken_pipe) Samples.stdio_module
                (registerMcpHandlers
                   (logged LOG "Bootstrapping MCP Module..." Samples.stdio_module)).2
                (Returns tt) eq_refl) as (m' & Hrun & _ & Hstdio & _).
  destruct (Hstdio eq_refl) as (Hcalls & Herr & _).
  exists m'. split; [exact Hrun|]. split; [exact Hcalls|].
  rewrite (Herr Samples.broken_pipe eq_refl). reflexivity.
Defined.

(** C9 as stated fails when registration raises: with two tools of one name
    the engine refuses the second, and on a provider whose scan raises
    nothing is registered at all; either way the exception leaves the hook
    although the process-stream transport is configured, and [connect] is
    never called. *)
Lemma onApplicationBootstrap_raises_before_connect :
  (onApplicationBootstrap (λ _, None) Samples.duplicate_tools_module).1
    = Raises Samples.already_registered
  ∧ connect_calls (onApplicationBootstrap (λ _, None) Samples.duplicate_tools_module).2 = []
  ∧ (onApplicationBootstrap (λ _, None) Samples.shadowed_module).1
    = Raises ExplorerService.type_error
  ∧ connect_calls (onApplicationBootstrap (λ _, None) Samples.shadowed_module).2 = []
  ∧ ¬ Pipeline.stdio_bootstrap_connects.
Proof.
  assert ((onApplicationBootstrap (λ _, None) Samples.shadowed_module).1
          = Raises ExplorerService.type_error) as Hraise by (vm_compute; reflexivity).
  split; [vm_compute; reflexivity|]. split; [vm_compute; reflexivity|].
  split; [exact Hraise|]. split; [vm_compute; reflexivity|].
  intros Hclaim.
  destruct (Hclaim (λ _, None) Samples.shadowed_module eq_refl) as (m' & Hrun & _).
  rewrite Hrun in Hraise. discriminate.
Qed.

End McpModuleSpec.

Module McpHttpServiceSpec.

Import McpHttpService Routing.

Ltac http :=
  unfold log_at, res_status_send, res_end, res_on_close, on_service, on_res; eff;
  cbn [service res headersSent statusCode sent ended close_listeners
       transports logger getServer connect_calls close_calls post_calls].

(** A message without a session id (absent or empty) is answered 400; the
    registry is not read or written. *)
Lemma handleMessage_missing_sessionId (req : Request) (post : PostMessage) (w : World) :
  Js.absent_or_empty (query_sessionId req) → headersSent (res w) = false →
  handleMessage req post w =
    (Returns tt,
     {| service := add_log WARN "Message received without sessionId" (service w);
        res := answered 400 "Missing sessionId parameter" (res w) |}).
Proof.
  intros Hq Hfresh. apply truthy_None in Hq. unfold handleMessage. rewrite Hq.
  http. by rewrite Hfresh.
Qed.

(** A session id that the registry object does not resolve is answered 404. *)
Lemma handleMessage_unknown_session (req : Request) (sessionId : string)
    (post : PostMessage) (w : World) :
  query_sessionId req = Some sessionId → sessionId ≠ EmptyString →
  transports (service w) !! sessionId = None →
  sessionId ∉ Js.object_prototype_keys →
  headersSent (res w) = false →
  handleMessage req post w =
    (Returns tt,
     {| service := add_log WARN ("No active transport found for sessionId: " +:+ sessionId)
                           (service w);
        res := answered 404 "No connection found for this sessionId" (res w) |}).
Proof.
  intros Hq Hne Hnone Hproto Hfresh.
  assert (Js.truthy (query_sessionId req) = Some sessionId) as Ht by by apply truthy_Some.
  unfold handleMessage. rewrite Ht. eff. unfold Js.get. rewrite Hnone.
  rewrite decide_False by done. http. by rewrite Hfresh.
Qed.

(** A session id with a registry entry: the request and the response go to
    that transport's handler.  If the handler rejects, the error is logged
    and answered 500 unless the headers have gone out; nothing is raised. *)
Lemma handleMessage_delegates (req : Request) (sessionId : string)
    (tr : SSEServerTransport) (post : PostMessage) (w : World) :
  query_sessionId req = Some sessionId → sessionId ≠ EmptyString →
  transports (service w) !! sessionId = Some tr →
  handleMessage req post w =
    (Returns tt,
     let s1 := add_post tr req (service w) in
     let r1 := (post tr req (res w)).1 in
     match (post tr req (res w)).2 with
     | None => {| service := s1; res := r1 |}
     | Some e =>
         let s2 := add_log ERROR ("Error handling message for session " +:+ sessionId +:+
                                  ": " +:+ Js.message e) s1 in
         {| service := s2;
            res := if headersSent r1 then r1 else answered 500 "Error processing message" r1 |}
     end).
Proof.
  intros Hq Hne Hsome.
  assert (Js.truthy (query_sessionId req) = Some sessionId) as Ht by by apply truthy_Some.
  unfold handleMessage. rewrite Ht. eff. unfold Js.get. rewrite Hsome.
  unfold transport_handlePostMessage. http.
  destruct (post tr req (res w)) as [r1 [e|]]; http; [|done].
  destruct (headersSent r1) eqn:Hsent; cbn; rewrite ?Hsent; done.
Qed.

(** Whatever the request and the handler do, [handleMessage] returns
    normally on a response whose headers have not gone out. *)
Lemma handleMessage_never_raises (req : Request) (post : PostMessage) (w : World) :
  headersSent (res w) = false →
  ∃ w', handleMessage req post w = (Returns tt, w').
Proof.
  intros Hfresh. unfold handleMessage.
  destruct (Js.truthy (query_sessionId req)) as [sessionId|]; http.
  - destruct (Js.get (transports (service w)) sessionId) as [tr|k|];
      unfold transport_handlePostMessage; http.
    + destruct (post tr req (res w)) as [r1 [e|]]; http; [|by eexists].
      destruct (headersSent r1) eqn:Hsent; cbn; rewrite ?Hsent; by eexists.
    + rewrite Hfresh. http. rewrite Hfresh. by eexists.
    + rewrite Hfresh. by eexists.
  - rewrite Hfresh. by eexists.
Qed.

(** C1 at the failing input [POST /messages?sessionId=constructor] on a
    multiplexer with no session: no registry entry exists for that id, yet
    the answer is 500 ("Error processing message"), not 404, because the
    registry object resolves [constructor] through [Object.prototype]. *)
Theorem handleMessage_inherited_key_answers_500 :
  ∀ handlePostMessage : PostMessage,
    transports Samples.idle_http !! "constructor" = None
    ∧ handleMessage Samples.forged_request handlePostMessage (Samples.world Samples.idle_http)
      = (Returns tt,
         {| service :=
              add_log ERROR
                "Error handling message for session constructor: transport.handlePostMessage is not a function"
                Samples.idle_http;
            res := answered 500 "Error processing message" new_response |})
    ∧ ¬ unknown_session_answers_404.
Proof.
  intros handlePostMessage.
  assert (∀ post, handleMessage Samples.forged_request post (Samples.world Samples.idle_http)
      = (Returns tt,
         {| service :=
              add_log ERROR
                "Error handling message for session constructor: transport.handlePostMessage is not a function"
                Samples.idle_http;
            res := answered 500 "Error processing message" new_response |})) as Hrun
    by (intros post; reflexivity).
  split; [reflexivity|]. split; [apply Hrun|].
  intros Hclaim.
  specialize (Hclaim Samples.forged_request "constructor" handlePostMessage Samples.idle_http
                eq_refl).
  rewrite Hrun in Hclaim. cbn in Hclaim.
  assert (500 = 404) as Habs by (apply Hclaim; [discriminate | reflexivity]).
  discriminate.
Qed.

(** *** Close of a push connection *)

Lemma snoc_neq {A} (l : list A) (x : A) : l ++ [x] ≠ l.
Proof.
  intros Heq. apply (f_equal length) in Heq. rewrite length_app in Heq. cbn in Heq. lia.
Qed.

Lemma routable_iff (s : t) (k : string) (tr : SSEServerTransport) :
  routable s k tr ↔ k ≠ EmptyString ∧ transports s !! k = Some tr.
Proof.
  split.
  - intros Hroute.
    specialize (Hroute {| query_sessionId := Some k; body := EmptyString |}
                       (λ _ _ r, (r, None)) new_response eq_refl).
    unfold handleMessage in Hroute. cbn [query_sessionId Js.truthy] in Hroute.
    destruct (decide (k = EmptyString)) as [->|Hk].
    + cbn in Hroute. symmetry in Hroute. by apply snoc_neq in Hroute.
    + split; [done|]. revert Hroute. eff. cbn [service transports]. unfold Js.get.
      destruct (transports s !! k) as [tr'|].
      * unfold transport_handlePostMessage. http. intros Hroute.
        apply app_inv_head in Hroute. by injection Hroute as ->.
      * destruct (decide (k ∈ Js.object_prototype_keys)); cbn; intros Hroute;
          symmetry in Hroute; by apply snoc_neq in Hroute.
  - intros [Hk Hsome] req post r Hq.
    rewrite (handleMessage_delegates req k tr post {| service := s; res := r |}) by done.
    cbn. by destruct (post tr req r) as [r1 [e|]].
Qed.

(** C6. When the stream of the connection [handleSSE] opened for
    [sessionId] closes, the listener [handleSSE] registered on it runs on the
    multiplexer as it then is: it removes that session's registry entry,
    every other entry is as before and routes as before.  It then calls the
    transport's [close()], which finds the entry already gone; when that
    promise settles, a rejection is logged as an error, the registry is not
    touched again, and nothing is raised. *)
Theorem close_listener_removes_only_its_session :
  ∀ (sessionId : string) (connect : EngineConnect) (w : World) (s : t)
    (outcome : option Js.Error),
    close_listeners (res w) = [] →
    (∀ tr r, close_listeners (connect tr r).1 = close_listeners r) →
    let transport := {| sessionId := sessionId; endpoint := "/api/mcp/messages" |} in
    ∃ s1 s2,
      emit_close (res (handleSSE sessionId connect w).2) s = (Returns tt, s1)
      ∧ transports s1 = delete sessionId (transports s)
      ∧ transports s1 !! sessionId = None
      ∧ (∀ k, k ≠ sessionId → transports s1 !! k = transports s !! k)
      ∧ (∀ k tr, k ≠ sessionId → routable s k tr → routable s1 k tr)
      ∧ close_calls s1 = close_calls s ++ [(transport, delete sessionId (transports s))]
      ∧ close_settled outcome s1 = (Returns tt, s2)
      ∧ transports s2 = transports s1
      ∧ (∀ err, outcome = Some err →
                errors (logger s2) =
                  errors (logger s1) ++ ["Error closing transport on disconnect:"])
      ∧ (outcome = None → s2 = s1).
Proof.
  intros sessionId connect w s outcome Hfresh Hconnect transport.
  assert (close_listeners (res (handleSSE sessionId connect w).2)
          = close_listeners (res w) ++ [(sessionId, transport)]) as Hlistens.
  { unfold handleSSE. fold transport. http. cbn [getServer add_log set_transports].
    destruct (getServer (service w)) as [server|].
    - unfold server_connect. http.
      match goal with |- context [connect ?tr ?r] =>
        pose proof (Hconnect tr r) as Hkeep; destruct (connect tr r) as [r' [e|]]
      end; cbn [fst close_listeners] in Hkeep; http; [|done].
      destruct (headersSent r') eqn:Hsent; http; rewrite ?Hsent; done.
    - http. destruct (headersSent (res w)) eqn:Hsent; http; rewrite ?Hsent; done. }
  unfold emit_close. rewrite Hlistens, Hfresh.
  cbn [app ExplorerService.forEach fst snd]. fold transport.
  destruct outcome as [err|]; eexists _, _; (split; [reflexivity|]).
  all: cbn [transports set_transports add_close add_log Js.del close_calls].
  all: split; [done|]; split; [apply lookup_delete_eq|].
  all: split; [intros k Hk; by apply lookup_delete_ne|].
  all: split;
    [ intros k tr Hk Hroute; apply routable_iff in Hroute as [Hne Hsome];
      apply routable_iff; split; [done|];
      cbn [transports set_transports add_close add_log]; unfold Js.del;
      by rewrite lookup_delete_ne |].
  all: split; [done|]; split; [reflexivity|]; split; [done|]; split; [|done].
  - intros _ _. cbn [logger add_log add_close set_transports]. unfold errors.
    by rewrite filter_app, fmap_app.
  - done.
Qed.

Lemma close_listener_removes_only_its_session_witness :
  let closed :=
    (emit_close (res (handleSSE "s1" Samples.resolving_connect
                        (Samples.world Samples.idle_http)).2)
                Samples.two_sessions).2 in
  transports closed !! "s1" = None
  ∧ routable closed "s2" (Samples.transport_of "s2").
Proof.
  destruct (close_listener_removes_only_its_session "s1" Samples.resolving_connect
              (Samples.world Samples.idle_http) Samples.two_sessions
              (Some Samples.broken_pipe))
    as (s1 & s2 & Hrun & _ & Hgone & _ & Hothers & _); [reflexivity | reflexivity |].
  cbv zeta. rewrite Hrun. split; [exact Hgone|].
  apply Hothers; [discriminate|].
  apply routable_iff. split; [discriminate | reflexivity].
Defined.

(** After the close of [s1], a message for [s1] is answered 404 and a
    message for [s2] still reaches the transport of [s2]. *)
Example message_after_close :
  statusCode (res (handleMessage Samples.request_s1 Samples.accepting
                     (Samples.world Samples.s1_closed)).2) = 404
  ∧ handleMessage Samples.request_s2 Samples.accepting (Samples.world Samples.s1_closed)
    = (Returns tt,
       {| service := add_post (Samples.transport_of "s2") Samples.request_s2 Samples.s1_closed;
          res := {| headersSent := true; statusCode := 202; sent := ["Accepted"];
                    ended := true; close_listeners := [] |} |}).
Proof. split; vm_compute; reflexivity. Qed.

(** *** Opening a push connection *)

(** C7 (as amended). With the engine handle absent and no byte flushed,
    [handleSSE] answers 500, calls no [connect] and returns normally; the
    registry entry written for the session is still there when it returns,
    and goes when the close listener of the stream runs.  When [connect]
    rejects after the headers have gone out, the stream is ended with no
    further payload and nothing is raised. *)
Theorem handleSSE_without_engine_or_failed_connect :
  ∀ (sessionId : string) (connect : EngineConnect) (w : World),
    let transport := {| sessionId := sessionId; endpoint := "/api/mcp/messages" |} in
    (getServer (service w) = None → headersSent (res w) = false →
       handleSSE sessionId connect w =
         (Returns tt,
          {| service := add_log ERROR "MCP Server instance is not available."
                          (opened sessionId transport (service w));
             res := answered 500 "MCP Server not initialized"
                      (listening sessionId transport (res w)) |})
       ∧ (sessionId ≠ "__proto__" →
          transports (opened sessionId transport (service w)) !! sessionId = Some transport)
       ∧ transports
           (close_listener sessionId transport
              (add_log ERROR "MCP Server instance is not available."
                 (opened sessionId transport (service w)))).2 !! sessionId = None)
    ∧ (∀ server r' e,
         getServer (service w) = Some server →
         connect transport (listening sessionId transport (res w)) = (r', Some e) →
         headersSent r' = true →
         handleSSE sessionId connect w =
           (Returns tt,
            {| service :=
                 add_log ERROR ("Error in SSE connection or during connect: " +:+ Js.message e)
                   (add_connect transport (opened sessionId transport (service w)));
               res := ended_stream r' |})).
Proof.
  intros sessionId connect w transport. split.
  - intros Hserver Hfresh. split; [|split].
    + unfold handleSSE. fold transport. http.
      cbn [getServer add_log set_transports]. rewrite Hserver. http.
      rewrite Hfresh. http. rewrite ?Hfresh. reflexivity.
    + intros Hproto. cbn. unfold Js.set. rewrite decide_False by done.
      apply lookup_insert_eq.
    + cbn. apply lookup_delete_eq.
  - intros server r' e Hserver Hconnect Hsent.
    unfold handleSSE. fold transport. http.
    cbn [getServer add_log set_transports]. rewrite Hserver.
    unfold server_connect. http.
    fold (listening sessionId transport (res w)). rewrite Hconnect. http.
    rewrite Hsent. reflexivity.
Qed.

Lemma handleSSE_without_engine_or_failed_connect_witness :
  statusCode (res (handleSSE "s1" Samples.failing_connect
                     (Samples.world Samples.engineless_http)).2) = 500
  ∧ transports (service (handleSSE "s1" Samples.failing_connect
                           (Samples.world Samples.engineless_http)).2) !! "s1"
    = Some (Samples.transport_of "s1")
  ∧ sent (res (handleSSE "s1" Samples.failing_connect
                 (Samples.world Samples.idle_http)).2) = [].
Proof.
  destruct (handleSSE_without_engine_or_failed_connect "s1" Samples.failing_connect
              (Samples.world Samples.engineless_http)) as [Habsent _].
  destruct (Habsent eq_refl eq_refl) as (Hrun & Hentry & _).
  destruct (handleSSE_without_engine_or_failed_connect "s1" Samples.failing_connect
              (Samples.world Samples.idle_http)) as [_ Hfail].
  specialize (Hfail _ _ _ eq_refl eq_refl eq_refl).
  rewrite Hrun, Hfail. split; [reflexivity|]. split; [|reflexivity].
  apply Hentry. discriminate.
Defined.

(** C7 as stated fails: on a multiplexer without engine handle,
    [handleSSE] answers 500 and returns while the entry it wrote for the
    session is still in the registry. *)
Lemma handleSSE_leaves_entry_without_engine :
  statusCode (res (handleSSE "s1" Samples.failing_connect
                     (Samples.world Samples.engineless_http)).2) = 500
  ∧ transports (service (handleSSE "s1" Samples.failing_connect
                           (Samples.world Samples.engineless_http)).2) !! "s1"
    = Some (Samples.transport_of "s1")
  ∧ ¬ no_entry_left_without_engine.
Proof.
  assert (transports (service (handleSSE "s1" Samples.failing_connect
                                 (Samples.world Samples.engineless_http)).2) !! "s1"
          = Some (Samples.transport_of "s1")) as Hentry by (vm_compute; reflexivity).
  split; [reflexivity|]. split; [exact Hentry|].
  intros Hclaim.
  specialize (Hclaim "s1" Samples.failing_connect (Samples.world Samples.engineless_http)
                eq_refl eq_refl).
  rewrite Hentry in Hclaim. discriminate.
Qed.

End McpHttpServiceSpec.

(* ===================================================================== *)
(** * Further properties of the code *)
(* ===================================================================== *)

Module McpServiceMore.

Import McpService Observations.

Lemma appended_nothing (s : t) : appended [] [] s = s.
Proof. unfold appended. rewrite !app_nil_r. by destruct s as [[] ?]. Qed.

Lemma appended_appended (c1 c2 : list EngineCall) (e1 e2 : list LogEntry) (s : t) :
  appended c2 e2 (appended c1 e1 s) = appended (c1 ++ c2) (e1 ++ e2) s.
Proof. unfold appended. cbn. by rewrite !app_assoc. Qed.

Lemma logged_appended (lv : LogLevel) (msg : string) (s : t) :
  logged lv msg s = appended [] [{| level := lv; text := msg |}] s.
Proof. unfold logged, appended. rewrite app_nil_r. by destruct s as [[] ?]. Qed.

Lemma registered_appended (c : EngineCall) (s : t) : registered c s = appended [c] [] s.
Proof. unfold registered, appended. by rewrite app_nil_r. Qed.

Lemma log_at_run (lv : LogLevel) (msg : string) (s : t) :
  log_at lv msg s = (Returns tt, appended [] [{| level := lv; text := msg |}] s).
Proof. rewrite <- logged_appended. reflexivity. Qed.

Lemma engine_ret_run {A} (c : EngineCall) (r : A) (s : t) :
  (engine c;; ret r) s = (engine_outcome s c r, appended [c] [] s).
Proof. rewrite <- registered_appended. apply McpServiceSpec.engine_then_ret. Qed.

Lemma new_ResourceTemplate_run (p : string) (s : t) :
  new_ResourceTemplate p s =
    match malformed (sdk (server s)) p with
    | Some e => (Raises e, s)
    | None => (Returns {| pattern := p; list_callback := None |}, s)
    end.
Proof.
  unfold new_ResourceTemplate. eff. by destruct (malformed (sdk (server s)) p).
Qed.

Lemma engine_outcome_raised {A} (s : t) (c : EngineCall) (r : A) (e : Js.Error) :
  engine_outcome s c r = Raises e → raised_by (sdk (server s)) e.
Proof.
  unfold engine_outcome.
  destruct (refuses (sdk (server s)) (registrations (server s)) c) as [e'|] eqn:Hc; [|done].
  intros [= <-]. left. by eexists _, _.
Qed.

Lemma engine_outcome_returned {A} (s : t) (c : EngineCall) (r r' : A) :
  engine_outcome s c r = Returns r' → r' = r.
Proof.
  unfold engine_outcome.
  destruct (refuses (sdk (server s)) (registrations (server s)) c); [done|].
  by intros [= <-].
Qed.

Lemma lenient_engine_outcome {A} (s : t) (c : EngineCall) (r : A) :
  lenient (sdk (server s)) → engine_outcome s c r = Returns r.
Proof. intros [Hc _]. unfold engine_outcome. by rewrite Hc. Qed.


Lemma loop_run_appended (promptName : string) (arguments : list PromptArgument)
    (acc : PromptArgsRawShape) (s : t) :
  registerPrompt_loop promptName arguments acc s =
    (Returns (foldl loop_step acc arguments),
     appended [] (nameless_warnings promptName arguments) s).
Proof.
  rewrite McpServiceSpec.registerPrompt_loop_run. unfold appended. rewrite app_nil_r. by destruct s as [[] ?].
Qed.

Lemma new_registrations_appended (calls : list EngineCall) (entries : list LogEntry) (s : t) :
  new_registrations s (appended calls entries s) = calls.
Proof. unfold new_registrations, appended. cbn. apply drop_app_length. Qed.

(** Runs a registration method symbolically, one step at a time. *)
Ltac step_service :=
  repeat first
    [ progress cbv beta iota
    | rewrite log_at_run
    | rewrite engine_ret_run
    | rewrite loop_run_appended
    | rewrite appended_appended
    | progress (unfold bind at 1; cbv beta iota)
    | progress (unfold ret at 1; cbv beta iota) ].

(** Closes the goal of an [_appends] lemma once the method has been run. *)
Ltac appends_done :=
  eexists _, _, _; (split; [reflexivity|]); cbn [length app]; (split; [lia|]);
  split;
  [ intros ? Hc; first [ apply engine_outcome_returned in Hc as ->; done
                       | injection Hc as <-; done
                       | discriminate Hc ]
  | intros ? Hc; first [ by apply engine_outcome_raised in Hc
                       | discriminate Hc ] ].

(** Runs the statement a method starts with, when it logs or loops. *)
Ltac step_statement :=
  unfold bind at 1; first [rewrite log_at_run | rewrite loop_run_appended];
  cbv beta iota; try rewrite appended_appended.

Lemma registerResource_appends (d : ResourceOptions) (h : Handler) (s : t) :
  ∃ c calls entries,
    registerResource d h s = (c, appended calls entries s)
    ∧ (length calls ≤ 1)%nat
    ∧ (∀ r, c = Returns r → (r = call_result ↔ length calls = 1))
    ∧ (∀ e, c = Raises e → raised_by (sdk (server s)) e).
Proof.
  unfold registerResource.
  destruct (Js.truthy (r_name d)) as [name|]; [|step_service; appends_done].
  destruct (isTemplateResource d); [destruct (r_uriTemplate d) as [[p|tpl|v]|]|].
  2-5: step_service; appends_done.
  step_statement.
  unfold bind at 1. rewrite new_ResourceTemplate_run. cbn [server appended sdk].
  destruct (malformed (sdk (server s)) p) as [e|] eqn:Hp.
  - eexists _, _, _. split; [reflexivity|]. cbn [length app]. split; [lia|].
    split; [done|]. intros e' [= <-]. right. by exists p.
  - step_service. appends_done.
Qed.

Lemma registerPrompt_appends (d : PromptType) (h : Handler) (s : t) :
  ∃ c calls entries,
    registerPrompt d h s = (c, appended calls entries s)
    ∧ (length calls ≤ 1)%nat
    ∧ (∀ r, c = Returns r → (r = call_result ↔ length calls = 1))
    ∧ (∀ e, c = Raises e → raised_by (sdk (server s)) e).
Proof.
  unfold registerPrompt.
  destruct (Js.truthy (p_name d)) as [name|]; [|step_service; appends_done].
  destruct (p_arguments d) as [[|a rest]|].
  1,3: step_service; appends_done.
  do 2 step_statement.
  destruct (decide (length (Js.keys (foldl loop_step ∅ (a :: rest))) = 0)).
  all: step_service; appends_done.
Qed.

Lemma registerTool_appends (d : option ToolOptions) (h : Handler) (s : t) :
  ∃ c calls entries,
    registerTool d h s = (c, appended calls entries s)
    ∧ (length calls ≤ 1)%nat
    ∧ (∀ r, c = Returns r → (r = call_result → length calls = 1))
    ∧ (∀ e, c = Raises e → raised_by (sdk (server s)) e).
Proof.
  unfold registerTool.
  destruct (d ≫= λ d0, (λ n, (d0, n)) <$> Js.truthy (t_name d0)) as [[d0 name]|].
  2: { step_service. eexists _, _, _. split; [reflexivity|]. cbn [length app].
       split; [lia|]. split; [by intros ? [= <-] | done]. }
  destruct (nonempty_shape (t_paramsSchema d0)), (Js.truthy (t_description d0)).
  all: step_service; eexists _, _, _; (split; [reflexivity|]); cbn [length app]; (split; [lia|]).
  all: split; [done | intros ? Hc; by apply engine_outcome_raised in Hc].
Qed.




(** X2. When [registerResource] or [registerPrompt] returns, what it returns
    is the result of an engine call exactly when the engine has received a
    call; otherwise it is nothing.  [registerTool] differs: for a definition
    with a name it always hands the engine one call, but when it returns, it
    returns the call's result only when the tool has both a description and
    a non-empty parameter shape, and nothing in the three other cases. *)
Theorem returned_engine_and_registration :
  ∀ (rd : ResourceOptions) (td : ToolOptions) (pd : PromptType) (h : Handler) (s : t),
    (∀ r, (registerResource rd h s).1 = Returns r →
          (r = call_result ↔ length (new_registrations s (registerResource rd h s).2) = 1))
    ∧ (∀ r, (registerPrompt pd h s).1 = Returns r →
            (r = call_result ↔ length (new_registrations s (registerPrompt pd h s).2) = 1))
    ∧ (Js.truthy (t_name td) ≠ None →
       length (new_registrations s (registerTool (Some td) h s).2) = 1
       ∧ (∀ r, (registerTool (Some td) h s).1 = Returns r →
            (r = call_result
             ↔ (∃ sh, t_paramsSchema td = Some sh ∧ sh ≠ ∅)
               ∧ (∃ de, t_description td = Some de ∧ de ≠ EmptyString)))).
Proof.
  intros rd td pd h s. split; [|split].
  - destruct (registerResource_appends rd h s) as (c & calls & entries & -> & _ & Hiff & _).
    cbn [fst snd]. rewrite new_registrations_appended. exact Hiff.
  - destruct (registerPrompt_appends pd h s) as (c & calls & entries & -> & _ & Hiff & _).
    cbn [fst snd]. rewrite new_registrations_appended. exact Hiff.
  - intros Hname. unfold registerTool. cbn [mbind option_bind].
    destruct (Js.truthy (t_name td)) as [name|]; [|done].
    change ((λ n : string, (td, n)) <$> Some name) with (Some (td, name)). cbv beta iota.
    destruct (nonempty_shape (t_paramsSchema td)) as [sh|] eqn:Hsh;
      destruct (Js.truthy (t_description td)) as [de|] eqn:Hde.
    all: step_service; cbn [fst snd]; rewrite new_registrations_appended.
    all: split; [done|]; intros r Hr; apply engine_outcome_returned in Hr as ->.
    + split; [intros _|done]. apply McpServiceSpec.nonempty_shape_Some in Hsh.
      apply truthy_Some in Hde. split; by eexists.
    + split; [done|]. intros [_ (de & Hd & Hne)].
      assert (Js.truthy (t_description td) = Some de) as Hd' by by apply truthy_Some.
      congruence.
    + split; [done|]. intros [(sh & Hs & Hne) _].
      assert (nonempty_shape (t_paramsSchema td) = Some sh) as Hs'
        by by apply McpServiceSpec.nonempty_shape_Some.
      congruence.
    + split; [done|]. intros [(sh & Hs & Hne) _].
      assert (nonempty_shape (t_paramsSchema td) = Some sh) as Hs'
        by by apply McpServiceSpec.nonempty_shape_Some.
      congruence.
Qed.

Lemma returned_engine_and_registration_witness :
  length (new_registrations Samples.service
            (registerTool (Some Samples.add_tool) Samples.greet Samples.service).2) = 1
  ∧ (registerTool (Some Samples.add_tool) Samples.greet Samples.service).1
    ≠ Returns call_result.
Proof.
  destruct (returned_engine_and_registration
              {| r_name := None; r_uri := None; r_uriTemplate := None;
                 r_description := None; r_metadata := None |}
              Samples.add_tool Samples.two_argument_prompt Samples.greet Samples.service)
    as (_ & _ & Htool).
  destruct Htool as [Hone Hiff]; [discriminate|].
  split; [exact Hone|].
  intros Hr. destruct (Hiff _ Hr) as [Hboth _].
  destruct (Hboth eq_refl) as [(sh & Hsh & _) _]. discriminate.
Defined.

(** *** The keys of a synthesized prompt schema *)

Lemma usable_name_Some (a : PromptArgument) (k : string) :
  usable_name a = Some k ↔ Js.truthy (a_name a) = Some k ∧ k ≠ "__proto__".
Proof.
  unfold usable_name. destruct (Js.truthy (a_name a)) as [n|].
  - destruct (decide (n = "__proto__")) as [->|Hn].
    + split; [done|]. by intros [[= <-] Hk].
    + split; [by intros [= ->] | by intros [[= ->] _]].
  - split; [done | by intros [? _]].
Qed.

Lemma foldl_loop_step_proto (arguments : list PromptArgument) (acc : PromptArgsRawShape) :
  foldl loop_step acc arguments !! "__proto__" = acc !! "__proto__".
Proof.
  revert acc. induction arguments as [|a rest IH]; intros acc; [done|].
  cbn [foldl]. rewrite IH. unfold loop_step, Js.set.
  destruct (Js.truthy (a_name a)) as [n|]; [|done].
  destruct (decide (n = "__proto__")); [done|]. by apply lookup_insert_ne.
Qed.

Lemma loop_schema_key (arguments : list PromptArgument) (k : string) :
  is_Some (foldl loop_step ∅ arguments !! k) ↔ ∃ a, a ∈ arguments ∧ usable_name a = Some k.
Proof.
  destruct (decide (k = "__proto__")) as [->|Hk].
  - rewrite foldl_loop_step_proto, lookup_empty. split; [by intros [? ?]|].
    intros (a & _ & Ha). apply usable_name_Some in Ha as [_ Hne]. done.
  - rewrite McpServiceSpec.foldl_loop_step_lookup by done. unfold arguments_named.
    destruct (last (filter (λ a, Js.truthy (a_name a) = Some k) arguments)) as [a|] eqn:Hlast.
    + split; [intros _ | by eexists].
      assert (a ∈ filter (λ a, Js.truthy (a_name a) = Some k) arguments) as Hin.
      { by apply last_Some_elem_of. }
      apply list_elem_of_filter in Hin as [Hname Hin].
      exists a. split; [done|]. by apply usable_name_Some.
    + rewrite lookup_empty. split; [by intros [? ?]|].
      intros (a & Hin & Ha). apply usable_name_Some in Ha as [Hname _].
      apply last_None in Hlast.
      assert (a ∈ filter (λ a, Js.truthy (a_name a) = Some k) arguments) as Hf
        by by apply list_elem_of_filter.
      rewrite Hlast in Hf. by apply not_elem_of_nil in Hf.
Qed.

Lemma loop_schema_empty (arguments : list PromptArgument) :
  foldl loop_step ∅ arguments = ∅ ↔ Forall (λ a, usable_name a = None) arguments.
Proof.
  split.
  - intros Hempty. apply Forall_forall. intros a Hin.
    destruct (usable_name a) as [k|] eqn:Hk; [|done].
    assert (is_Some (foldl loop_step ∅ arguments !! k)) as [v Hv]
      by (apply loop_schema_key; by exists a).
    rewrite Hempty, lookup_empty in Hv. done.
  - intros Hnone. apply map_eq. intros k. rewrite lookup_empty.
    apply eq_None_not_Some. intros Hsome. apply loop_schema_key in Hsome as (a & Hin & Ha).
    rewrite Forall_forall in Hnone. rewrite (Hnone a Hin) in Ha. done.
Qed.

(** X3. For a prompt with a non-empty name, [registerPrompt] registers a
    zero-argument prompt exactly when no argument has a usable name (a name
    that is absent, empty or [__proto__] is not usable; this covers an absent
    or empty argument list).  Otherwise it registers the prompt with a schema
    that is never empty and whose keys are exactly the usable names. *)
Theorem registerPrompt_schema_keys :
  ∀ (d : PromptType) (name : string) (h : Handler) (s : t),
    p_name d = Some name → name ≠ EmptyString →
    let arguments := default [] (p_arguments d) in
    let description := default EmptyString (p_description d) in
    let s' := (registerPrompt d h s).2 in
    (Forall (λ a, usable_name a = None) arguments →
       new_registrations s s' = [prompt_plain name description h])
    ∧ (¬ Forall (λ a, usable_name a = None) arguments →
       ∃ argsSchema,
         new_registrations s s' = [prompt_args name description argsSchema h]
         ∧ argsSchema ≠ ∅
         ∧ ∀ k, is_Some (argsSchema !! k) ↔ ∃ a, a ∈ arguments ∧ usable_name a = Some k).
Proof.
  intros d name h s Hn Hne arguments description s'.
  assert (Js.truthy (p_name d) = Some name) as Ht by by apply truthy_Some.
  assert (default EmptyString (Js.truthy (p_description d)) = description) as Hd.
  { unfold description, Js.truthy. destruct (p_description d) as [x|]; [|done].
    by destruct (decide (x = EmptyString)) as [->|]. }
  unfold s', registerPrompt. rewrite Ht, Hd. unfold arguments.
  destruct (p_arguments d) as [[|a rest]|]; cbn [default].
  1,3: step_service; cbn [snd]; rewrite new_registrations_appended; split; [done|];
       intros Hnot; destruct Hnot; constructor.
  match goal with
  | |- context [new_registrations s (?run).2] => remember run as out eqn:Hout
  end.
  revert Hout. do 2 step_statement. pose proof (loop_schema_empty (a :: rest)) as Hempty.
  destruct (decide (length (Js.keys (foldl loop_step ∅ (a :: rest))) = 0)) as [Hz|Hnz].
  - apply keys_empty_iff in Hz. step_service. intros ->. cbn [snd].
    rewrite new_registrations_appended. split; [done|]. intros Hnot. by apply Hempty in Hz.
  - rewrite keys_empty_iff in Hnz. step_service. intros ->. cbn [snd].
    rewrite new_registrations_appended. split.
    + intros Hall. by apply Hempty in Hall.
    + intros _. eexists. split; [reflexivity|]. split; [done|]. apply loop_schema_key.
Qed.

Lemma registerPrompt_schema_keys_witness :
  ∃ argsSchema,
    new_registrations Samples.service
      (registerPrompt Samples.two_argument_prompt Samples.greet Samples.service).2
      = [prompt_args "greeting" "Greets" argsSchema Samples.greet]
    ∧ is_Some (argsSchema !! "b") ∧ argsSchema !! "c" = None.
Proof.
  destruct (registerPrompt_schema_keys Samples.two_argument_prompt "greeting" Samples.greet
              Samples.service eq_refl) as [_ Hsome]; [discriminate|].
  destruct Hsome as (argsSchema & Hrun & _ & Hkeys).
  { intros Hall. apply Forall_cons in Hall as [Ha _]. discriminate. }
  exists argsSchema. split; [exact Hrun|]. split.
  - apply Hkeys. exists (Samples.arg "b" false). split; [|reflexivity].
    apply list_elem_of_further, list_elem_of_here.
  - apply eq_None_not_Some. intros Hc. apply Hkeys in Hc as (a & Hin & Ha).
    change (a ∈ [Samples.arg "a" true; Samples.arg "b" false]) in Hin.
    rewrite !elem_of_cons in Hin.
    destruct Hin as [-> | [-> | Hnil]]; [discriminate | discriminate |].
    by apply not_elem_of_nil in Hnil.
Defined.

End McpServiceMore.

Module ExplorerServiceMore.

Import McpService ExplorerService Scan ScanOutcome ExplorerServiceSpec.

Lemma methods_outcome {T} (metadataKey : MetadataKey T) (id : nat)
    (methods : list (string * Member)) :
  ∀ acc : list (DiscoveredItem T),
    match head (omap (λ m, failure m.2) methods) with
    | Some e => (forEach methods (explore_method metadataKey id) acc).1 = Raises e
    | None =>
        forEach methods (explore_method metadataKey id) acc
          = (Returns tt, acc ++ (methods ≫= found_method metadataKey id))
    end.
Proof.
  induction methods as [|m rest IH]; intros acc.
  - cbn. unfold ret. by rewrite app_nil_r.
  - cbn [omap list_omap forEach]. unfold bind.
    destruct (failure m.2) as [e|] eqn:Hm.
    + cbn [head]. by rewrite (explore_method_raises _ _ m e).
    + rewrite explore_method_quiet by done.
      specialize (IH (acc ++ found_method metadataKey id m)).
      destruct (head (omap (λ m0, failure m0.2) rest)); [done|].
      rewrite IH. cbn. by rewrite <- app_assoc.
Qed.

Lemma component_outcome {T} (metadataKey : MetadataKey T) (w : InstanceWrapper)
    (acc : list (DiscoveredItem T)) :
  match head (failures_in w) with
  | Some e => (explore_component metadataKey w acc).1 = Raises e
  | None => explore_component metadataKey w acc = (Returns tt, acc ++ found_in metadataKey w)
  end.
Proof.
  unfold failures_in, scanned, explore_component, found_in.
  destruct (instance w) as [| | id [] methods]; cbn [omap list_omap head];
    try (unfold ret; by rewrite app_nil_r).
  apply methods_outcome.
Qed.

Lemma components_outcome {T} (metadataKey : MetadataKey T) (components : list InstanceWrapper) :
  ∀ acc : list (DiscoveredItem T),
    match head (components ≫= failures_in) with
    | Some e => (forEach components (explore_component metadataKey) acc).1 = Raises e
    | None =>
        forEach components (explore_component metadataKey) acc
          = (Returns tt, acc ++ (components ≫= found_in metadataKey))
    end.
Proof.
  induction components as [|w rest IH]; intros acc.
  - cbn. unfold ret. by rewrite app_nil_r.
  - rewrite bind_cons, head_app. cbn [forEach]. unfold bind.
    pose proof (component_outcome metadataKey w acc) as Hw.
    destruct (head (failures_in w)) as [e|].
    + destruct (explore_component metadataKey w acc) as [[[]|e'] acc']; cbn in Hw; [done|].
      by injection Hw as ->.
    + rewrite Hw. specialize (IH (acc ++ found_in metadataKey w)).
      destruct (head (rest ≫= failures_in)); [done|].
      rewrite IH, bind_cons. by rewrite <- app_assoc.
Qed.

Lemma failures_in_filter (components : list InstanceWrapper) :
  filter (λ wrapper, is_truthy (instance wrapper) = true) components ≫= failures_in
  = components ≫= failures_in.
Proof.
  induction components as [|w rest IH]; [done|].
  rewrite filter_cons. destruct (decide (is_truthy (instance w) = true)) as [|Hf].
  - cbn. by rewrite IH.
  - cbn. rewrite IH. unfold failures_in at 2, scanned. by destruct (instance w).
Qed.

(** How [explore] ends, for any key: it raises the first exception a scanned
    member raises, and otherwise returns what the decorated members give. *)
Lemma explore_outcome {T} (metadataKey : MetadataKey T) (modulesContainer : ModulesContainer) :
  explore metadataKey modulesContainer =
    match first_failure modulesContainer with
    | Some e => Raises e
    | None => Returns ((modulesContainer ≫= providers) ≫= found_in metadataKey)
    end.
Proof.
  unfold explore, first_failure.
  pose proof (components_outcome metadataKey
                (filter (λ wrapper, is_truthy (instance wrapper) = true)
                        (modulesContainer ≫= providers)) []) as Hc.
  rewrite failures_in_filter in Hc.
  destruct (head ((modulesContainer ≫= providers) ≫= failures_in)) as [e|].
  - destruct (forEach _ _ _) as [[[]|e'] acc]; cbn in Hc; [done|]. by injection Hc as ->.
  - rewrite Hc. cbn. by rewrite found_in_filter.
Qed.

(** X4. The three scans end alike: on one container, a scan for one kind of
    decorator raises exactly when a scan for any other kind raises, and with
    the same exception.  One provider with a member whose lookup raises
    therefore hides the resources, the tools and the prompts of every
    provider. *)
Theorem scans_raise_alike :
  ∀ {T1 T2} (key1 : MetadataKey T1) (key2 : MetadataKey T2)
    (modulesContainer : ModulesContainer) (e : Js.Error),
    (explore key1 modulesContainer = Raises e ↔ explore key2 modulesContainer = Raises e)
    ∧ (exploreResources modulesContainer = Raises e
       ↔ exploreTools modulesContainer = Raises e)
    ∧ (exploreTools modulesContainer = Raises e
       ↔ explorePrompts modulesContainer = Raises e).
Proof.
  intros T1 T2 key1 key2 modulesContainer e.
  unfold exploreResources, exploreTools, explorePrompts. rewrite !explore_outcome.
  destruct (first_failure modulesContainer); repeat split; intros Hr.
  all: first [discriminate Hr | by injection Hr as ->].
Qed.

(** X5. Scanning follows the order of the modules: a scan of two containers
    one after the other raises what the first scan raises, else what the
    second raises, and else returns the items of the first followed by the
    items of the second. *)
Theorem explore_app :
  ∀ {T} (metadataKey : MetadataKey T) (c1 c2 : ModulesContainer),
    explore metadataKey (c1 ++ c2) =
      match explore metadataKey c1, explore metadataKey c2 with
      | Raises e, _ => Raises e
      | Returns _, Raises e => Raises e
      | Returns items1, Returns items2 => Returns (items1 ++ items2)
      end.
Proof.
  intros T metadataKey c1 c2. rewrite !explore_outcome. unfold first_failure.
  rewrite !bind_app, head_app.
  destruct (head ((c1 ≫= providers) ≫= failures_in)); [done|].
  by destruct (head ((c2 ≫= providers) ≫= failures_in)).
Qed.

Lemma found_method_elem {T} (metadataKey : MetadataKey T) (id : nat)
    (m : string * Member) (item : DiscoveredItem T) :
  item ∈ found_method metadataKey id m ↔
    ∃ d, m.2 = member_function d ∧ metadataKey d = Some (metadata item)
         ∧ item_instance item = id
         ∧ handler item = {| owner := id; method := m.1 |}.
Proof.
  unfold found_method. destruct m as [name [| d | | e]]; cbn [fst snd].
  1,3,4: rewrite elem_of_nil; split; [done | by intros (d' & Hd & _)].
  destruct (metadataKey d) as [md|] eqn:Hmd.
  - rewrite list_elem_of_singleton. split.
    + intros ->. by exists d.
    + intros (d' & [= <-] & Hk & Hi & Hh). destruct item as [i hd mdi]. cbn in *.
      rewrite Hmd in Hk. by simplify_eq.
  - rewrite elem_of_nil. split; [done|]. intros (d' & [= <-] & Hk & _). congruence.
Qed.

(** X6. When a scan returns, its items are exactly the decorated function
    members of the providers that are objects with a constructor: every item
    stems from such a member, is bound to the instance that owns it and
    carries the metadata found under the key, and every such member is among
    the items. *)
Theorem explore_items_sound_and_complete :
  ∀ {T} (metadataKey : MetadataKey T) (modulesContainer : ModulesContainer)
    (items : list (DiscoveredItem T)),
    explore metadataKey modulesContainer = Returns items →
    ∀ item, item ∈ items ↔
      ∃ w, w ∈ modulesContainer ≫= providers ∧ discovered_from metadataKey w item.
Proof.
  intros T metadataKey modulesContainer items Hrun item.
  rewrite explore_outcome in Hrun. destruct (first_failure modulesContainer); [done|].
  injection Hrun as <-. rewrite list_elem_of_bind.
  split.
  - intros (w & Hitem & Hw). exists w. split; [done|].
    unfold found_in in Hitem. unfold discovered_from.
    destruct (instance w) as [| | id [] methods]; try by apply elem_of_nil in Hitem.
    apply list_elem_of_bind in Hitem as ([name m] & Hitem & Hm).
    apply found_method_elem in Hitem as (d & Hd & Hk & Hi & Hh). cbn in Hd, Hh. subst m.
    by exists id, methods, name, d.
  - intros (w & Hw & id & methods & name & d & Hinst & Hm & Hk & Hi & Hh).
    exists w. split; [|done]. unfold found_in. rewrite Hinst.
    apply list_elem_of_bind. exists (name, member_function d). split; [|done].
    apply found_method_elem. by exists d.
Qed.

Lemma explore_items_sound_and_complete_witness :
  ∃ w, w ∈ Samples.tolerant_container ≫= providers
       ∧ discovered_from MCP_TOOL_METADATA w
           {| item_instance := 2; handler := {| owner := 2; method := "add" |};
              metadata := {| methodName := "add"; options := Some Samples.add_tool |} |}.
Proof.
  apply (explore_items_sound_and_complete MCP_TOOL_METADATA Samples.tolerant_container
           [{| item_instance := 2; handler := {| owner := 2; method := "add" |};
               metadata := {| methodName := "add"; options := Some Samples.add_tool |} |}]).
  - reflexivity.
  - apply list_elem_of_here.
Defined.

End ExplorerServiceMore.

Module McpModuleMore.

Import McpModule Pipeline.

(** What a callback of the registration phase makes of the outcome of the
    coordinator's method. *)
Lemma in_service_then_ret {A} (c : Eff McpService.t A) (m : t) :
  ∃ m', (in_service c;; ret tt) m
          = (match (c (mcpService m)).1 with
             | Returns _ => Returns tt
             | Raises e => Raises e
             end, m')
        ∧ mcpService m' = (c (mcpService m)).2
        ∧ explorerService m' = explorerService m.
Proof.
  unfold in_service. eff. destruct (c (mcpService m)) as [[r|e] s']; by eexists.
Qed.

(** A loop whose callback, on an item that registers, returns normally and
    acts on the coordinator as [step] does. *)
Lemma forEach_steps {A} (registers : McpService.t → A → Prop) (f : A → Eff t unit)
    (step : McpService.t → A → McpService.t) (l : list A) :
  (∀ x m, registers (mcpService m) x →
          ∃ m', f x m = (Returns tt, m')
                ∧ mcpService m' = step (mcpService m) x
                ∧ explorerService m' = explorerService m) →
  ∀ m, all_register registers step (mcpService m) l →
       ∃ m', ExplorerService.forEach l f m = (Returns tt, m')
             ∧ mcpService m' = foldl step (mcpService m) l
             ∧ explorerService m' = explorerService m.
Proof.
  intros Hf. induction l as [|x l IH]; intros m Hall.
  - by exists m.
  - destruct Hall as [Hx Hl].
    destruct (Hf x m Hx) as (m1 & Hrun & Hs & He).
    destruct (IH m1) as (m2 & Hrest & Hs2 & He2); [by rewrite Hs|].
    exists m2. cbn [ExplorerService.forEach foldl]. unfold bind. rewrite Hrun, Hrest.
    split; [done|]. split; [by rewrite Hs2, Hs | by rewrite He2, He].
Qed.

Lemma resource_callback (item : ExplorerService.DiscoveredItem McpService.ResourceOptions)
    (f : ExplorerService.DiscoveredItem McpService.ResourceOptions → Eff t unit) (m : t) :
  f = (λ item,
    let metadata := ExplorerService.metadata item in
    let handler := ExplorerService.handler item in
    log_at DEBUG ("Registering resource from handler: " +:+
      default (ExplorerService.methodName metadata)
        (ExplorerService.options metadata ≫= λ o, Js.truthy (McpService.r_name o)));;
    match ExplorerService.options metadata with
    | None => throw undefined_property_error
    | Some definition =>
        in_service (McpService.registerResource definition handler);; ret tt
    end) →
  ∃ c m', f item m = (c, m')
          ∧ mcpService m' = register_resource_item (mcpService m) item
          ∧ explorerService m' = explorerService m
          ∧ (resource_registers (mcpService m) item → c = Returns tt)
          ∧ (ExplorerService.options (ExplorerService.metadata item) = None →
             c = Raises undefined_property_error).
Proof.
  intros ->. unfold register_resource_item, resource_registers. cbv beta zeta.
  unfold bind at 1. unfold log_at at 1, modify.
  match goal with |- context [match ExplorerService.options _ with _ => _ end ?m1] =>
    set (logged_m := m1)
  end.
  destruct (ExplorerService.options (ExplorerService.metadata item)) as [d|] eqn:Ho.
  - destruct (in_service_then_ret
                (McpService.registerResource d (ExplorerService.handler item)) logged_m)
      as (m' & Hrun & Hs & He).
    rewrite Hrun. eexists _, m'. split; [reflexivity|]. split; [exact Hs|].
    split; [exact He|]. split; [|done].
    intros (d' & r & [= <-] & Hr). cbn [mcpService logged_m]. by rewrite Hr.
  - eexists _, _. split; [reflexivity|]. split; [done|]. split; [done|].
    split; [|done]. by intros (d' & r & [=] & _).
Qed.

Lemma tool_callback (item : ExplorerService.DiscoveredItem McpService.ToolOptions)
    (f : ExplorerService.DiscoveredItem McpService.ToolOptions → Eff t unit) (m : t) :
  f = (λ item,
    let metadata := ExplorerService.metadata item in
    let handler := ExplorerService.handler item in
    match ExplorerService.options metadata ≫=
            λ o, (λ n, (o, n)) <$> Js.truthy (McpService.t_name o) with
    | None =>
        log_at WARN ("Tool handler " +:+ handler_name handler +:+
                     " is missing required 'name' in options. Skipping registration.")
    | Some (definition, name) =>
        log_at DEBUG ("Registering tool from handler: " +:+ name);;
        in_service (McpService.registerTool (Some definition) handler);; ret tt
    end) →
  tool_registers (mcpService m) item →
  ∃ m', f item m = (Returns tt, m')
        ∧ mcpService m' = register_tool_item (mcpService m) item
        ∧ explorerService m' = explorerService m.
Proof.
  intros -> Hreg. unfold register_tool_item, tool_registers in *. cbv beta zeta.
  destruct (ExplorerService.options (ExplorerService.metadata item)) as [d|];
    cbn [mbind option_bind]; [|by eexists].
  destruct (Js.truthy (McpService.t_name d)) as [name|] eqn:Hname;
    cbn [fmap option_fmap option_map]; [|by eexists].
  destruct (Hreg d name eq_refl Hname) as [r Hr].
  unfold bind at 1. unfold log_at at 1, modify.
  match goal with |- context [(in_service ?c;; ret tt) ?m1] =>
    destruct (in_service_then_ret c m1) as (m' & Hrun & Hs & He); rewrite Hrun
  end.
  cbn [mcpService] in *. rewrite Hr. by exists m'.
Qed.

Lemma prompt_callback (item : ExplorerService.DiscoveredItem McpService.PromptType)
    (f : ExplorerService.DiscoveredItem McpService.PromptType → Eff t unit) (m : t) :
  f = (λ item,
    let metadata := ExplorerService.metadata item in
    let handler := ExplorerService.handler item in
    match ExplorerService.options metadata ≫=
            λ o, (λ n, (o, n)) <$> Js.truthy (McpService.p_name o) with
    | None =>
        log_at WARN ("Prompt handler " +:+ handler_name handler +:+
                     " is missing required 'name' in options. Skipping registration.")
    | Some (definition, name) =>
        log_at DEBUG ("Registering prompt from handler: " +:+ name);;
        in_service (McpService.registerPrompt definition handler);; ret tt
    end) →
  prompt_registers (mcpService m) item →
  ∃ m', f item m = (Returns tt, m')
        ∧ mcpService m' = register_prompt_item (mcpService m) item
        ∧ explorerService m' = explorerService m.
Proof.
  intros -> Hreg. unfold register_prompt_item, prompt_registers in *. cbv beta zeta.
  destruct (ExplorerService.options (ExplorerService.metadata item)) as [d|];
    cbn [mbind option_bind]; [|by eexists].
  destruct (Js.truthy (McpService.p_name d)) as [name|] eqn:Hname;
    cbn [fmap option_fmap option_map]; [|by eexists].
  destruct (Hreg d name eq_refl Hname) as [r Hr].
  unfold bind at 1. unfold log_at at 1, modify.
  match goal with |- context [(in_service ?c;; ret tt) ?m1] =>
    destruct (in_service_then_ret c m1) as (m' & Hrun & Hs & He); rewrite Hrun
  end.
  cbn [mcpService] in *. rewrite Hr. by exists m'.
Qed.

(** X7. When the three scans return and every registration that is made
    returns (each discovered resource carries options, and neither the engine
    nor the matcher's constructor raises), the registration phase returns
    normally and leaves the coordinator as the calls [registerResource],
    [registerTool] and [registerPrompt] leave it, made in that order and in
    discovery order; a tool or a prompt whose options are missing or have no
    name never reaches the coordinator. *)
Theorem registerMcpHandlers_registers_in_order :
  ∀ (m : t) resources tools prompts,
    ExplorerService.exploreResources (explorerService m) = Returns resources →
    ExplorerService.exploreTools (explorerService m) = Returns tools →
    ExplorerService.explorePrompts (explorerService m) = Returns prompts →
    let s1 := foldl register_resource_item (mcpService m) resources in
    let s2 := foldl register_tool_item s1 tools in
    all_register resource_registers register_resource_item (mcpService m) resources →
    all_register tool_registers register_tool_item s1 tools →
    all_register prompt_registers register_prompt_item s2 prompts →
    ∃ m', registerMcpHandlers m = (Returns tt, m')
          ∧ mcpService m' = register_all resources tools prompts (mcpService m).
Proof.
  intros m resources tools prompts Hr Ht Hp s1 s2 Hall1 Hall2 Hall3.
  unfold registerMcpHandlers.
  unfold bind at 1, in_explorer at 1. rewrite Hr.
  match goal with |- context [ExplorerService.forEach resources ?f] => set (cb1 := f) end.
  destruct (forEach_steps resource_registers cb1 register_resource_item resources)
    with (m := m) as (m1 & Hrun1 & Hs1 & He1); [|exact Hall1|].
  { intros x m0 Hx.
    destruct (resource_callback x cb1 m0 eq_refl) as (c & m' & Hrun & Hs & He & Hc & _).
    exists m'. by rewrite Hrun, (Hc Hx). }
  unfold bind at 1. rewrite Hrun1.
  unfold bind at 1, in_explorer at 1. rewrite He1, Ht.
  match goal with |- context [ExplorerService.forEach tools ?f] => set (cb2 := f) end.
  destruct (forEach_steps tool_registers cb2 register_tool_item tools) with (m := m1)
    as (m2 & Hrun2 & Hs2 & He2); [|by rewrite Hs1|].
  { intros x m0 Hx. exact (tool_callback x cb2 m0 eq_refl Hx). }
  unfold bind at 1. rewrite Hrun2.
  unfold bind at 1, in_explorer at 1. rewrite He2, He1, Hp.
  match goal with |- context [ExplorerService.forEach prompts ?f] => set (cb3 := f) end.
  destruct (forEach_steps prompt_registers cb3 register_prompt_item prompts) with (m := m2)
    as (m3 & Hrun3 & Hs3 & He3); [|by rewrite Hs2, Hs1|].
  { intros x m0 Hx. exact (prompt_callback x cb3 m0 eq_refl Hx). }
  exists m3. split; [exact Hrun3|]. unfold register_all. by rewrite Hs3, Hs2, Hs1.
Qed.

Lemma registerMcpHandlers_registers_in_order_witness :
  McpService.registrations
    (McpService.server (mcpService (registerMcpHandlers Samples.stdio_module).2))
  = [McpService.tool_description "add" "adds" {| McpService.owner := 2; McpService.method := "add" |}].
Proof.
  destruct (registerMcpHandlers_registers_in_order Samples.stdio_module [] _ []
              eq_refl eq_refl eq_refl) as (m' & Hrun & Hs).
  - exact I.
  - split; [|exact I]. intros definition name [= <-] _. by eexists.
  - exact I.
  - rewrite Hrun. cbn [snd]. rewrite Hs. reflexivity.
Defined.



(** X9. The registration phase runs outside the [try] of the bootstrap
    hook: when it raises, the hook raises the same exception, without having
    attempted a connection, whatever the transport.  In particular a provider
    whose scan raises makes the hook fail before anything is registered. *)
Theorem onApplicationBootstrap_propagates_registration_failure :
  ∀ (connect : McpService.McpServer → option Js.Error) (m : t) (e : Js.Error),
    (∀ m1, registerMcpHandlers (logged LOG "Bootstrapping MCP Module..." m) = (Raises e, m1) →
           onApplicationBootstrap connect m = (Raises e, m1)
           ∧ connect_calls m1 = connect_calls m)
    ∧ (ScanOutcome.first_failure (explorerService m) = Some e →
       onApplicationBootstrap connect m
         = (Raises e, logged LOG "Bootstrapping MCP Module..." m)).
Proof.
  intros connect m e. split.
  - intros m1 Hreg. split.
    + unfold onApplicationBootstrap, log_at at 1. eff.
      fold (logged LOG "Bootstrapping MCP Module..." m). by rewrite Hreg.
    + by destruct (McpModuleSpec.preserves_registerMcpHandlers _ _ _ Hreg) as (_ & _ & ->).
  - intros Hfail.
    unfold onApplicationBootstrap, log_at at 1. eff.
    fold (logged LOG "Bootstrapping MCP Module..." m).
    unfold registerMcpHandlers, in_explorer. eff. cbn [explorerService logged].
    unfold ExplorerService.exploreResources.
    by rewrite ExplorerServiceMore.explore_outcome, Hfail.
Qed.

Lemma onApplicationBootstrap_propagates_registration_failure_witness :
  onApplicationBootstrap (λ _, None) Samples.shadowed_module
    = (Raises ExplorerService.type_error,
       logged LOG "Bootstrapping MCP Module..." Samples.shadowed_module).
Proof.
  destruct (onApplicationBootstrap_propagates_registration_failure
              (λ _, None) Samples.shadowed_module ExplorerService.type_error) as [_ Hscan].
  apply Hscan. reflexivity.
Defined.

(** *** The coordinator only grows *)

Lemma service_grows_refl (s : McpService.t) : service_grows s s.
Proof. exists [], []. by rewrite McpServiceMore.appended_nothing. Qed.

Lemma service_grows_trans (s1 s2 s3 : McpService.t) :
  service_grows s1 s2 → service_grows s2 s3 → service_grows s1 s3.
Proof.
  intros (c1 & e1 & ->) (c2 & e2 & ->). eexists _, _.
  by rewrite McpServiceMore.appended_appended.
Qed.

Lemma keeps_growing_unchanged {A} (c : Eff t A) :
  (∀ m r m', c m = (r, m') → mcpService m' = mcpService m) → keeps_growing c.
Proof. intros Hc m r m' Hrun. rewrite (Hc _ _ _ Hrun). apply service_grows_refl. Qed.

Lemma keeps_growing_bind {A B} (c : Eff t A) (k : A → Eff t B) :
  keeps_growing c → (∀ a, keeps_growing (k a)) → keeps_growing (bind c k).
Proof.
  intros Hc Hk m r m'. unfold bind. destruct (c m) as [[a|e] m1] eqn:Hrun.
  - intros Hrest. eapply service_grows_trans; [by eapply Hc | by eapply Hk].
  - intros [= <- <-]. by eapply Hc.
Qed.

Lemma keeps_growing_try_catch {A} (c : Eff t A) (h : Js.Error → Eff t A) :
  keeps_growing c → (∀ e, keeps_growing (h e)) → keeps_growing (try_catch c h).
Proof.
  intros Hc Hh m r m'. unfold try_catch. destruct (c m) as [[a|e] m1] eqn:Hrun.
  - intros [= <- <-]. by eapply Hc.
  - intros Hrest. eapply service_grows_trans; [by eapply Hc | by eapply Hh].
Qed.

Lemma keeps_growing_forEach {A} (l : list A) (f : A → Eff t unit) :
  (∀ x, keeps_growing (f x)) → keeps_growing (ExplorerService.forEach l f).
Proof.
  intros Hf. induction l as [|x l IH]; cbn [ExplorerService.forEach].
  - apply keeps_growing_unchanged. by intros m r m' [= <- <-].
  - apply keeps_growing_bind; [apply Hf | intros _; apply IH].
Qed.

Lemma keeps_growing_in_service {A} (c : Eff McpService.t A) :
  (∀ s, service_grows s (c s).2) → keeps_growing (in_service c).
Proof.
  intros Hc m r m'. unfold in_service. specialize (Hc (mcpService m)).
  destruct (c (mcpService m)) as [r0 s0]. by intros [= <- <-].
Qed.

Lemma register_methods_grow :
  (∀ d h s, service_grows s (McpService.registerResource d h s).2)
  ∧ (∀ d h s, service_grows s (McpService.registerTool d h s).2)
  ∧ (∀ d h s, service_grows s (McpService.registerPrompt d h s).2).
Proof.
  split; [|split]; intros d h s.
  - destruct (McpServiceMore.registerResource_appends d h s) as (r & c & e & -> & _).
    by exists c, e.
  - destruct (McpServiceMore.registerTool_appends d h s) as (r & c & e & -> & _).
    by exists c, e.
  - destruct (McpServiceMore.registerPrompt_appends d h s) as (r & c & e & -> & _).
    by exists c, e.
Qed.

Ltac growing :=
  repeat first
    [ progress cbv zeta
    | apply keeps_growing_bind; [|intros ?]
    | apply keeps_growing_try_catch; [|intros ?]
    | apply keeps_growing_forEach; intros ?
    | apply keeps_growing_in_service; intros ?; apply register_methods_grow
    | match goal with |- keeps_growing (match ?x with _ => _ end) => destruct x end
    | match goal with |- keeps_growing (if ?x then _ else _) => destruct x end
    | (apply keeps_growing_unchanged; intros ? ? ?;
       first [ by intros [= <- <-]
             | unfold server_connect; eff;
               match goal with |- context [match ?x with _ => _ end] => destruct x end;
               by intros [= <- <-] ]) ].

Lemma keeps_growing_registerMcpHandlers : keeps_growing registerMcpHandlers.
Proof. unfold registerMcpHandlers. growing. Qed.

(** X10. However the registration phase and the bootstrap hook end, by
    returning or by raising, the coordinator afterwards is the coordinator
    before with registrations and log entries added: the engine's info and
    options and every earlier registration are kept, in order. *)
Theorem bootstrap_keeps_earlier_registrations :
  ∀ (connect : McpService.McpServer → option Js.Error) (m : t),
    (∃ calls entries,
        mcpService (registerMcpHandlers m).2
          = Observations.appended calls entries (mcpService m))
    ∧ (∃ calls entries,
        mcpService (onApplicationBootstrap connect m).2
          = Observations.appended calls entries (mcpService m)).
Proof.
  intros connect m. split.
  - destruct (registerMcpHandlers m) as [r m'] eqn:Hrun.
    exact (keeps_growing_registerMcpHandlers _ _ _ Hrun).
  - destruct (onApplicationBootstrap connect m) as [r m'] eqn:Hrun.
    revert Hrun. generalize m r m'. change (keeps_growing (onApplicationBootstrap connect)).
    unfold onApplicationBootstrap.
    apply keeps_growing_bind; [growing | intros ?].
    apply keeps_growing_bind; [apply keeps_growing_registerMcpHandlers | intros ?].
    growing.
Qed.

End McpModuleMore.

Module McpModuleStaticMore.

Import McpModuleStatic.

(** X11. Both module builders list exactly one provider for the options
    token, in first place, and always provide the coordinator and the
    scanner and export the coordinator; the asynchronous builder imports the
    caller's modules, in order, followed by the discovery module. *)
Theorem builders_provide_options_once :
  ∀ (options : McpService.McpModuleOptions) (asyncOptions : McpModuleAsyncOptions)
    (dm : DynamicModule),
    dm = forRoot options ∨ dm = forRootAsync asyncOptions →
    (provided <$> head (providers dm)) = Some MCP_MODULE_OPTIONS
    ∧ length (filter (λ p, provided p = MCP_MODULE_OPTIONS) (providers dm)) = 1
    ∧ TypeProvider McpService ∈ providers dm
    ∧ TypeProvider ExplorerService ∈ providers dm
    ∧ exports dm = [McpService]
    ∧ module dm = McpModule
    ∧ (dm = forRootAsync asyncOptions →
       module_imports dm = Some (default [] (imports asyncOptions) ++ [DiscoveryModule])).
Proof.
  intros options asyncOptions dm [-> | ->].
  - cbn. repeat split; try done; set_solver.
  - unfold forRootAsync, createAsyncProviders, createAsyncOptionsProvider. cbn.
    destruct (bool_decide _), (useFactory asyncOptions), (useClass asyncOptions);
      cbn; repeat split; try done; set_solver.
Qed.

Lemma builders_provide_options_once_witness :
  length (filter (λ p, provided p = MCP_MODULE_OPTIONS)
                 (providers (forRootAsync
                    {| imports := None; useExisting := None; useClass := Some "Config";
                       useFactory := None; inject := None |}))) = 1.
Proof.
  apply (builders_provide_options_once
           {| McpService.serverInfo := None; McpService.serverOptions := None;
              McpService.transport := None |}
           {| imports := None; useExisting := None; useClass := Some "Config";
              useFactory := None; inject := None |}).
  by right.
Defined.

(** X12. In the asynchronous builder [useFactory] takes precedence: the
    options provider is the caller's factory with the caller's [inject]
    (empty when absent) and no class is provided.  Without [useFactory] the
    options are made by [createMcpOptions] of one injected class, [useClass]
    if given and else [useExisting]; that class is provided by the module
    exactly when [useExisting] is absent, so with both given [useClass] is
    injected but not provided. *)
Theorem async_options_provider_precedence :
  ∀ (o : McpModuleAsyncOptions),
    (∀ f, useFactory o = Some f →
          createAsyncProviders o
            = [FactoryProvider MCP_MODULE_OPTIONS (user_factory f) (default [] (inject o))])
    ∧ (useFactory o = None →
       ∃ injected,
         injected = token_of (match useClass o with Some c => Some c | None => useExisting o end)
         ∧ createAsyncOptionsProvider o
           = FactoryProvider MCP_MODULE_OPTIONS createMcpOptions_factory [injected]
         ∧ (useExisting o = None →
            createAsyncProviders o
              = [createAsyncOptionsProvider o; ClassProvider injected injected])
         ∧ (is_Some (useExisting o) →
            createAsyncProviders o = [createAsyncOptionsProvider o])).
Proof.
  intros o. split.
  - intros f Hf. unfold createAsyncProviders, createAsyncOptionsProvider. rewrite Hf.
    rewrite bool_decide_eq_true_2; [done|]. right. by eexists.
  - intros Hf. eexists. split; [reflexivity|].
    unfold createAsyncProviders, createAsyncOptionsProvider. rewrite Hf.
    split; [done|]. split.
    + intros He. rewrite He. rewrite bool_decide_eq_false_2.
      * by destruct (useClass o).
      * intros [[? ?]|[? ?]]; done.
    + intros He. rewrite bool_decide_eq_true_2; [done|]. by left.
Qed.

Lemma async_options_provider_precedence_witness :
  providers (forRootAsync {| imports := None; useExisting := Some "Shared";
                             useClass := Some "Config"; useFactory := None;
                             inject := None |})
  = [FactoryProvider MCP_MODULE_OPTIONS createMcpOptions_factory [class_token "Config"];
     TypeProvider McpService; TypeProvider ExplorerService].
Proof.
  destruct (async_options_provider_precedence
              {| imports := None; useExisting := Some "Shared"; useClass := Some "Config";
                 useFactory := None; inject := None |}) as [_ Hclass].
  destruct (Hclass eq_refl) as (injected & -> & Hprovider & _ & Hexisting).
  unfold forRootAsync. rewrite Hexisting by (by eexists). by rewrite Hprovider.
Defined.

End McpModuleStaticMore.

Module McpHttpServiceMore.

Import McpHttpService Routing Sessions.

Ltac http := McpHttpServiceSpec.http.

(** Splits a run of [handleSSE] into its cases: engine present or not, how
    [connect] settles, whether the headers are out. *)
Ltac sse_cases sessionId connect w :=
  unfold handleSSE; http; cbn [getServer add_log set_transports];
  destruct (getServer (service w)) as [server|];
  [ unfold server_connect; http;
    destruct (connect {| sessionId := sessionId; endpoint := "/api/mcp/messages" |}
                {| headersSent := headersSent (res w); statusCode := statusCode (res w);
                   sent := sent (res w); ended := ended (res w);
                   close_listeners :=
                     close_listeners (res w)
                     ++ [(sessionId, {| sessionId := sessionId;
                                        endpoint := "/api/mcp/messages" |})] |})
      as [r' [e|]]; http;
    [ let H := fresh "Hsent" in destruct (headersSent r') eqn:H; http; rewrite ?H | ]
  | http;
    let H := fresh "Hsent" in destruct (headersSent (res w)) eqn:H; http; rewrite ?H ].

(** X13. [handleSSE] never raises: with the engine absent, with a
    [connect] that rejects before or after the headers went out, or with one
    that resolves, it returns normally. *)
Theorem handleSSE_never_raises :
  ∀ (sessionId : string) (connect : EngineConnect) (w : World),
    ∃ w', handleSSE sessionId connect w = (Returns tt, w').
Proof.
  intros sessionId connect w. sse_cases sessionId connect w; by eexists.
Qed.

Lemma handleSSE_effect (sessionId : string) (connect : EngineConnect) (w : World) :
  let s' := service (handleSSE sessionId connect w).2 in
  transports s' = Js.set (transports (service w)) sessionId (transport_for sessionId)
  ∧ (∀ k, k ≠ sessionId → transports s' !! k = transports (service w) !! k)
  ∧ close_calls s' = close_calls (service w)
  ∧ post_calls s' = post_calls (service w)
  ∧ connect_calls s' =
      connect_calls (service w)
      ++ match getServer (service w) with
         | Some _ => [transport_for sessionId]
         | None => []
         end.
Proof.
  assert (∀ k, k ≠ sessionId →
            Js.set (transports (service w)) sessionId (transport_for sessionId) !! k
            = transports (service w) !! k) as Hother.
  { intros k Hk. unfold Js.set. destruct (decide (sessionId = "__proto__")); [done|].
    by apply lookup_insert_ne. }
  sse_cases sessionId connect w; cbn; rewrite ?app_nil_r; by repeat split.
Qed.

(** X14. Whatever the engine does, [handleSSE] writes the registry at its
    own session id only and calls no transport's [close] or
    [handlePostMessage]; it calls [connect] exactly once when the engine
    handle is present and not at all when it is absent. *)
Theorem handleSSE_touches_its_session_only :
  ∀ (sessionId : string) (connect : EngineConnect) (w : World),
    let s' := service (handleSSE sessionId connect w).2 in
    transports s' = Js.set (transports (service w)) sessionId (transport_for sessionId)
    ∧ (∀ k, k ≠ sessionId → transports s' !! k = transports (service w) !! k)
    ∧ close_calls s' = close_calls (service w)
    ∧ post_calls s' = post_calls (service w)
    ∧ connect_calls s' =
        connect_calls (service w)
        ++ match getServer (service w) with
         | Some _ => [transport_for sessionId]
         | None => []
         end.
Proof. exact handleSSE_effect. Qed.

(** X15. When the engine handle is present and [connect] resolves, the
    connection stays open: [handleSSE] returns with the response as the
    engine left it, and from then on a message carrying the session id
    (neither empty nor [__proto__]) reaches the new transport; sessions that
    were routable stay routable. *)
Theorem opened_session_is_routable :
  ∀ (sessionId : string) (connect : EngineConnect) (w : World)
    (server : McpService.McpServer) (r' : Response),
    sessionId ≠ EmptyString → sessionId ≠ "__proto__" →
    getServer (service w) = Some server →
    connect (transport_for sessionId) (listening sessionId (transport_for sessionId) (res w))
      = (r', None) →
    let w' := (handleSSE sessionId connect w).2 in
    res w' = r'
    ∧ routable (service w') sessionId (transport_for sessionId)
    ∧ (∀ k tr, k ≠ sessionId → routable (service w) k tr → routable (service w') k tr).
Proof.
  intros sessionId connect w server r' Hne Hproto Hserver Hconnect w'.
  destruct (handleSSE_effect sessionId connect w) as (Hreg & Hother & _).
  fold w' in Hreg, Hother. split; [|split].
  - unfold w', handleSSE. fold (transport_for sessionId). http.
    cbn [getServer add_log set_transports]. rewrite Hserver.
    unfold server_connect. http.
    fold (listening sessionId (transport_for sessionId) (res w)). by rewrite Hconnect.
  - apply McpHttpServiceSpec.routable_iff. split; [done|].
    rewrite Hreg. unfold Js.set. rewrite decide_False by done. apply lookup_insert_eq.
  - intros k tr Hk Hroute. apply McpHttpServiceSpec.routable_iff in Hroute as [Hkne Hsome].
    apply McpHttpServiceSpec.routable_iff. split; [done|]. by rewrite Hother.
Qed.

Lemma opened_session_is_routable_witness :
  routable (service (handleSSE "s3" Samples.resolving_connect
                       (Samples.world Samples.two_sessions)).2)
           "s3" (transport_for "s3")
  ∧ routable (service (handleSSE "s3" Samples.resolving_connect
                         (Samples.world Samples.two_sessions)).2)
             "s2" (Samples.transport_of "s2").
Proof.
  destruct (opened_session_is_routable "s3" Samples.resolving_connect
              (Samples.world Samples.two_sessions)
              (McpService.getServer Samples.service)
              (Samples.resolving_connect (transport_for "s3")
                 (listening "s3" (transport_for "s3") new_response)).1)
    as (_ & Hnew & Hold); [discriminate | discriminate | reflexivity | reflexivity |].
  split; [exact Hnew|]. apply Hold; [discriminate|].
  apply McpHttpServiceSpec.routable_iff. split; [discriminate | reflexivity].
Defined.

(** X16. Opening a connection and closing it again leaves the registry as
    it was, when the session id had no entry before. *)
Theorem open_then_close_restores_registry :
  ∀ (sessionId : string) (connect : EngineConnect) (w : World),
    transports (service w) !! sessionId = None →
    transports
      (close_listener sessionId (transport_for sessionId)
         (service (handleSSE sessionId connect w).2)).2
    = transports (service w).
Proof.
  intros sessionId connect w Hfresh.
  destruct (handleSSE_effect sessionId connect w) as (Hreg & _).
  cbn [close_listener]. unfold close_listener. eff.
  cbn [snd transports add_close set_transports add_log]. rewrite Hreg.
  unfold Js.del, Js.set. destruct (decide (sessionId = "__proto__")).
  - by apply delete_id.
  - by apply delete_insert_id.
Qed.

Lemma open_then_close_restores_registry_witness :
  transports
    (close_listener "s3" (transport_for "s3")
       (service (handleSSE "s3" Samples.failing_connect
                   (Samples.world Samples.two_sessions)).2)).2
  = transports Samples.two_sessions.
Proof.
  apply (open_then_close_restores_registry "s3" Samples.failing_connect
           (Samples.world Samples.two_sessions)).
  reflexivity.
Defined.

(** X17. With the engine handle present, [handleSSE] leaves the response
    as the engine wrote it when [connect] resolves, logging no error; when
    [connect] rejects before any header went out it answers 500
    ("Error establishing SSE connection").  Both times it returns normally
    and the session stays registered. *)
Theorem handleSSE_with_engine :
  ∀ (sessionId : string) (connect : EngineConnect) (w : World)
    (server : McpService.McpServer) (r' : Response),
    getServer (service w) = Some server →
    let transport := transport_for sessionId in
    (connect transport (listening sessionId transport (res w)) = (r', None) →
       handleSSE sessionId connect w =
         (Returns tt,
          {| service := add_connect transport (opened sessionId transport (service w));
             res := r' |}))
    ∧ (∀ e, connect transport (listening sessionId transport (res w)) = (r', Some e) →
            headersSent r' = false →
            handleSSE sessionId connect w =
              (Returns tt,
               {| service :=
                    add_log ERROR
                      ("Error in SSE connection or during connect: " +:+ Js.message e)
                      (add_connect transport (opened sessionId transport (service w)));
                  res := answered 500 "Error establishing SSE connection" r' |})).
Proof.
  intros sessionId connect w server r' Hserver transport. split.
  - intros Hconnect. unfold handleSSE. fold (transport_for sessionId). fold transport. http.
    cbn [getServer add_log set_transports]. rewrite Hserver.
    unfold server_connect. http.
    fold (listening sessionId transport (res w)). rewrite Hconnect. reflexivity.
  - intros e Hconnect Hsent. unfold handleSSE. fold (transport_for sessionId). fold transport.
    http. cbn [getServer add_log set_transports]. rewrite Hserver.
    unfold server_connect. http.
    fold (listening sessionId transport (res w)). rewrite Hconnect. http.
    rewrite Hsent. http. rewrite Hsent. reflexivity.
Qed.

Lemma handleSSE_with_engine_witness :
  handleSSE "s1" (λ _ r, (r, Some Samples.broken_pipe)) (Samples.world Samples.idle_http)
  = (Returns tt,
     {| service :=
          add_log ERROR "Error in SSE connection or during connect: EPIPE"
            (add_connect (transport_for "s1")
               (opened "s1" (transport_for "s1") Samples.idle_http));
        res := answered 500 "Error establishing SSE connection"
                 (listening "s1" (transport_for "s1") new_response) |}).
Proof.
  destruct (handleSSE_with_engine "s1" (λ _ r, (r, Some Samples.broken_pipe))
              (Samples.world Samples.idle_http) _
              (listening "s1" (transport_for "s1") new_response) eq_refl) as [_ Hreject].
  apply (Hreject Samples.broken_pipe); reflexivity.
Defined.

(** X18. [handleMessage] never writes the registry and never connects or
    closes a transport.  It hands the request to a transport at most once:
    exactly when the session id is non-empty and has an entry of its own in
    the registry. *)
Theorem handleMessage_leaves_registry :
  ∀ (req : Request) (handlePostMessage : PostMessage) (w : World),
    let s' := service (handleMessage req handlePostMessage w).2 in
    transports s' = transports (service w)
    ∧ connect_calls s' = connect_calls (service w)
    ∧ close_calls s' = close_calls (service w)
    ∧ post_calls s' =
        post_calls (service w)
        ++ match Js.truthy (query_sessionId req) with
           | Some sessionId =>
               match transports (service w) !! sessionId with
               | Some transport => [(transport, req)]
               | None => []
               end
           | None => []
           end.
Proof.
  intros req post w. unfold handleMessage.
  destruct (Js.truthy (query_sessionId req)) as [sessionId|]; http.
  - unfold Js.get. destruct (transports (service w) !! sessionId) as [tr|].
    + unfold transport_handlePostMessage. http.
      destruct (post tr req (res w)) as [r1 [e|]]; http; [|by repeat split].
      destruct (headersSent r1) eqn:Hsent; http; rewrite ?Hsent; by repeat split.
    + destruct (decide (sessionId ∈ Js.object_prototype_keys)).
      * unfold transport_handlePostMessage. http.
        destruct (headersSent (res w)) eqn:Hsent; http; rewrite ?Hsent; cbn;
          rewrite app_nil_r; by repeat split.
      * http. destruct (headersSent (res w)) eqn:Hsent; cbn; rewrite app_nil_r;
          by repeat split.
  - destruct (headersSent (res w)) eqn:Hsent; cbn; rewrite app_nil_r; by repeat split.
Qed.

(** *** Several connections *)

Lemma open_all_cons (connect : EngineConnect) (sessionId : string) (rest : list string)
    (s : t) :
  open_all connect (sessionId :: rest) s
  = open_all connect rest (service (handleSSE sessionId connect (fresh s)).2).
Proof. reflexivity. Qed.

Lemma open_all_lookup (connect : EngineConnect) (sessionIds : list string) :
  ∀ (s : t) (k : string),
    transports (open_all connect sessionIds s) !! k =
      if decide (k ∈ sessionIds ∧ k ≠ "__proto__") then Some (transport_for k)
      else transports s !! k.
Proof.
  induction sessionIds as [|sid rest IH]; intros s k.
  - cbn. rewrite decide_False; [done|]. intros [Hin _]. by apply elem_of_nil in Hin.
  - rewrite open_all_cons, IH.
    destruct (handleSSE_effect sid connect (fresh s)) as (Hreg & Hother & _).
    cbn [service fresh] in Hreg, Hother.
    destruct (decide (k ∈ rest ∧ k ≠ "__proto__")) as [[Hin Hp]|Hnot].
    + rewrite decide_True; [done|]. split; [by right | done].
    + destruct (decide (k = sid)) as [->|Hk].
      * rewrite Hreg. unfold Js.set. destruct (decide (sid = "__proto__")) as [Hp|Hp].
        -- rewrite decide_False; [done|]. by intros [_ ?].
        -- rewrite decide_True; [apply lookup_insert_eq|]. split; [by left | done].
      * rewrite Hother by done. rewrite decide_False; [done|].
        intros [Hin Hp]. apply elem_of_cons in Hin as [?|Hin]; [done|]. by apply Hnot.
Qed.

(** X19. Opening connections with pairwise distinct session ids, none of
    them [__proto__] and none registered yet, adds one registry entry per
    connection: each id maps to its own transport, every other key is as
    before, and the registry grows by the number of connections. *)
Theorem open_all_registers_each_session :
  ∀ (connect : EngineConnect) (sessionIds : list string) (s : t),
    NoDup sessionIds →
    "__proto__" ∉ sessionIds →
    (∀ k, k ∈ sessionIds → transports s !! k = None) →
    let s' := open_all connect sessionIds s in
    (∀ k, k ∈ sessionIds → transports s' !! k = Some (transport_for k))
    ∧ (∀ k, k ∉ sessionIds → transports s' !! k = transports s !! k)
    ∧ size (transports s') = size (transports s) + length sessionIds.
Proof.
  intros connect sessionIds s Hdup Hproto Hfresh s'. unfold s'. split; [|split].
  - intros k Hin. rewrite open_all_lookup, decide_True; [done|].
    split; [done|]. by intros ->.
  - intros k Hout. rewrite open_all_lookup, decide_False; [done|]. by intros [? _].
  - clear s'. revert s Hfresh. induction Hdup as [|sid rest Hnotin Hdup IH]; intros s Hfresh.
    + cbn. lia.
    + rewrite open_all_cons.
      destruct (handleSSE_effect sid connect (fresh s)) as (Hreg & Hother & _).
      cbn [service fresh] in Hreg, Hother.
      rewrite IH.
      * rewrite Hreg. unfold Js.set. rewrite decide_False.
        -- rewrite map_size_insert_None; [cbn; lia|]. apply Hfresh. by left.
        -- intros ->. apply Hproto. by left.
      * intros Hp. apply Hproto. by right.
      * intros k Hin. rewrite Hother; [apply Hfresh; by right|]. by intros ->.
Qed.

Lemma open_all_registers_each_session_witness :
  size (transports (open_all Samples.resolving_connect ["a"; "b"; "c"] Samples.two_sessions)) = 5.
Proof.
  destruct (open_all_registers_each_session Samples.resolving_connect ["a"; "b"; "c"]
              Samples.two_sessions) as (_ & _ & Hsize).
  - repeat constructor; rewrite ?elem_of_cons, ?elem_of_nil; intros Hin;
      repeat destruct Hin as [Hin|Hin]; done.
  - rewrite !elem_of_cons, elem_of_nil. intros [?|[?|[?|?]]]; done.
  - intros k. rewrite !elem_of_cons, elem_of_nil. intros [->|[->|[->|?]]]; done.
  - rewrite Hsize. reflexivity.
Defined.

(** *** Answers of [handleMessage] *)

(** X21. On a response whose headers have not gone out, [handleMessage]
    returns normally whatever the request and the transport do.  A session
    id that is absent or empty is answered 400 and one that the registry
    does not resolve (no entry of its own and not a name inherited from
    [Object.prototype]) is answered 404; either way nothing but a warning is
    recorded. *)
Theorem handleMessage_answers_400_and_404 :
  ∀ (req : Request) (handlePostMessage : PostMessage) (w : World),
    headersSent (res w) = false →
    (∃ w', handleMessage req handlePostMessage w = (Returns tt, w'))
    ∧ (Js.absent_or_empty (query_sessionId req) →
       handleMessage req handlePostMessage w =
         (Returns tt,
          {| service := add_log WARN "Message received without sessionId" (service w);
             res := answered 400 "Missing sessionId parameter" (res w) |}))
    ∧ (∀ sessionId,
         query_sessionId req = Some sessionId → sessionId ≠ EmptyString →
         transports (service w) !! sessionId = None →
         sessionId ∉ Js.object_prototype_keys →
         handleMessage req handlePostMessage w =
           (Returns tt,
            {| service :=
                 add_log WARN ("No active transport found for sessionId: " +:+ sessionId)
                         (service w);
               res := answered 404 "No connection found for this sessionId" (res w) |})).
Proof.
  intros req post w Hfresh. split; [|split].
  - by apply McpHttpServiceSpec.handleMessage_never_raises.
  - intros Hq. by apply McpHttpServiceSpec.handleMessage_missing_sessionId.
  - intros sessionId Hq Hne Hnone Hproto.
    by apply McpHttpServiceSpec.handleMessage_unknown_session.
Qed.

Lemma handleMessage_answers_400_and_404_witness :
  statusCode (res (handleMessage {| query_sessionId := None; body := "{}" |}
                     Samples.accepting (Samples.world Samples.two_sessions)).2) = 400
  ∧ statusCode (res (handleMessage {| query_sessionId := Some "gone"; body := "{}" |}
                       Samples.accepting (Samples.world Samples.two_sessions)).2) = 404.
Proof.
  destruct (handleMessage_answers_400_and_404 {| query_sessionId := None; body := "{}" |}
              Samples.accepting (Samples.world Samples.two_sessions) eq_refl)
    as (_ & H400 & _).
  destruct (handleMessage_answers_400_and_404 {| query_sessionId := Some "gone"; body := "{}" |}
              Samples.accepting (Samples.world Samples.two_sessions) eq_refl)
    as (_ & _ & H404).
  rewrite H400 by (by left).
  rewrite (H404 "gone"); [done | done | done | done |].
  vm_compute. intros Hin. repeat (apply elem_of_cons in Hin as [Hin|Hin]; [discriminate|]).
  by apply elem_of_nil in Hin.
Defined.

(** X22. A message whose session id has an entry of its own in the registry
    is handed, with the response, to that session's transport.  When the
    transport's handler resolves, the response is left as the handler wrote
    it; when it rejects, the error is logged and the message is answered 500
    unless the handler had already sent the headers.  Nothing is raised. *)
Theorem handleMessage_hands_over_to_the_transport :
  ∀ (req : Request) (sessionId : string) (transport : SSEServerTransport)
    (handlePostMessage : PostMessage) (w : World),
    query_sessionId req = Some sessionId → sessionId ≠ EmptyString →
    transports (service w) !! sessionId = Some transport →
    let handed := add_post transport req (service w) in
    let written := (handlePostMessage transport req (res w)).1 in
    handleMessage req handlePostMessage w =
      (Returns tt,
       match (handlePostMessage transport req (res w)).2 with
       | None => {| service := handed; res := written |}
       | Some e =>
           {| service :=
                add_log ERROR ("Error handling message for session " +:+ sessionId +:+
                               ": " +:+ Js.message e) handed;
              res := if headersSent written then written
                     else answered 500 "Error processing message" written |}
       end).
Proof.
  intros req sessionId transport post w Hq Hne Hsome handed written.
  by rewrite (McpHttpServiceSpec.handleMessage_delegates req sessionId transport post w).
Qed.

Lemma handleMessage_hands_over_to_the_transport_witness :
  handleMessage Samples.request_s2 (λ _ _ r, (r, Some Samples.broken_pipe))
                (Samples.world Samples.two_sessions)
  = (Returns tt,
     {| service :=
          add_log ERROR "Error handling message for session s2: EPIPE"
            (add_post (Samples.transport_of "s2") Samples.request_s2 Samples.two_sessions);
        res := answered 500 "Error processing message" new_response |}).
Proof.
  rewrite (handleMessage_hands_over_to_the_transport Samples.request_s2 "s2"
             (Samples.transport_of "s2") (λ _ _ r, (r, Some Samples.broken_pipe))
             (Samples.world Samples.two_sessions));
    [reflexivity | reflexivity | discriminate | reflexivity].
Defined.

End McpHttpServiceMore.

Module StderrLoggerMore.

Import StderrLogger.

Lemma printMessages_chunks (super : ConsoleLogger) (pid : nat) (context : string)
    (logLevel : NestLogLevel) (messages : list string) :
  ∀ st, ∃ chunks at_,
    ExplorerService.forEach messages (λ message,
      let pidMessage := formatPid super pid in
      let contextMessage := formatContext super context in
      timestampDiff <- update_timestamp super;;
      let formattedLogLevel := padStart 7 (toUpperCase (level_string logLevel)) in
      let formattedMessage :=
        formatMessage super logLevel message pidMessage formattedLogLevel contextMessage
                      timestampDiff in
      stderr_write formattedMessage) st
    = (Returns tt, {| stdout := stdout st; stderr := stderr st ++ chunks;
                      lastTimestampAt := at_ |})
    ∧ Forall2 (λ message chunk,
                 ∃ diff, chunk = formatMessage super logLevel message (formatPid super pid)
                                   (label logLevel) (formatContext super context) diff)
              messages chunks.
Proof.
  induction messages as [|message rest IH]; intros st.
  - exists [], (lastTimestampAt st). cbn. unfold ret. rewrite app_nil_r.
    split; [by destruct st | constructor].
  - cbn [ExplorerService.forEach]. unfold bind at 1. cbv zeta.
    unfold bind at 1, update_timestamp at 1, stderr_write at 1, modify.
    destruct (updateAndGetTimestampDiff super (lastTimestampAt st)) as [diff at1].
    cbn [stdout stderr lastTimestampAt].
    destruct (IH {| stdout := stdout st;
                    stderr := stderr st ++
                      [formatMessage super logLevel message (formatPid super pid)
                         (padStart 7 (toUpperCase (level_string logLevel)))
                         (formatContext super context) diff];
                    lastTimestampAt := at1 |}) as (chunks & at2 & Hrun & Hall).
    cbv zeta in Hrun. rewrite Hrun. cbn [stdout stderr].
    eexists (_ :: chunks), at2. rewrite <- app_assoc. split; [reflexivity|].
    constructor; [by exists diff | done].
Qed.

(** X20. [printMessages] writes one chunk per message to stderr, in the
    order of the messages, each the inherited [formatMessage] of that message
    with a level label that is 7 characters wide; it writes nothing to
    stdout, also when the caller asks for stdout. *)
Theorem printMessages_writes_stderr_only :
  ∀ (super : ConsoleLogger) (pid : nat) (messages : list string) (context : option string)
    (logLevel : option NestLogLevel) (writeStreamType : option WriteStream) (st : State),
    ∃ chunks st',
      printMessages super pid messages context logLevel writeStreamType st = (Returns tt, st')
      ∧ stdout st' = stdout st
      ∧ stderr st' = stderr st ++ chunks
      ∧ Forall2 (λ message chunk,
                   ∃ diff, chunk = formatMessage super (default log logLevel) message
                                     (formatPid super pid) (label (default log logLevel))
                                     (formatContext super (default EmptyString context)) diff)
                messages chunks
      ∧ String.length (label (default log logLevel)) = 7.
Proof.
  intros super pid messages context logLevel writeStreamType st.
  destruct (printMessages_chunks super pid (default EmptyString context)
              (default log logLevel) messages st) as (chunks & at_ & Hrun & Hall).
  exists chunks. eexists. unfold printMessages. cbv zeta in Hrun |- *. rewrite Hrun.
  split; [reflexivity|]. split; [done|]. split; [done|]. split; [done|].
  by destruct logLevel as [[]|].
Qed.

End StderrLoggerMore.
